(** * Letterboxio: a shallow embedding of the session, cache, queue and
    resolver logic of [letterboxd.js] and of the server module that drives it.

    Time is [Date.now()] in milliseconds, held as a [Z].  JavaScript [Map]s
    keyed by strings are stdpp [gmap string _].  Network and browser calls are
    not executed: their outcomes are parameters (oracles) of the definitions,
    and what the code does with each outcome is written out. *)

From Stdlib Require Import ZArith List String Ascii Bool.
From stdpp Require Import base gmap strings.
Import ListNotations.
Open Scope Z_scope.

(** ** JavaScript values that the modelled code stores in its maps. *)

(** A number stored by [getUserRating] is always [val / 2] for an integer
    [val]; it is held as its count of halves. *)
Inductive jsval :=
| JNull
| JHalves (k : Z).

(** ** The TTL cache ([cache], [setCache], [getCache] in letterboxd.js) *)

Module Cache.

Record entry (V : Type) := mkEntry { value : V; expiresAt : Z }.
Arguments mkEntry {V} _ _.
Arguments value {V} _.
Arguments expiresAt {V} _.

Section WithValue.
Context {V : Type} (js_null : V).

(** [cache.set(key, { value, expiresAt: Date.now() + ttlMs })] *)
Definition setCache (c : gmap string (entry V)) (now : Z) (key : string)
    (v : V) (ttlMs : Z) : gmap string (entry V) :=
  <[key := mkEntry v (now + ttlMs)]> c.

(** [getCache]: returns the value and the map after the read (an expired
    entry is deleted). [null] for a missing or expired entry. *)
Definition getCache (c : gmap string (entry V)) (now : Z) (key : string)
    : V * gmap string (entry V) :=
  match c !! key with
  | None => (js_null, c)
  | Some e =>
      if Z.ltb (expiresAt e) now          (* Date.now() > entry.expiresAt *)
      then (js_null, delete key c)
      else (value e, c)
  end.

End WithValue.
End Cache.

Import Cache.

(** ** getUserRating (letterboxd.js), as far as its cache is concerned *)

Module UserRating.

(** What the browser part of [getUserRating] does, in order. *)
Inductive ur_effect :=
| UREnsureLoggedIn              (* await ensureBrowserLoggedIn() *)
| URNewPage                     (* b.newPage() + request interception *)
| URGoto (url : string)         (* page.goto(filmUrl) *)
| UREvaluate                    (* page.evaluate(...) reading the widget *)
| URClosePage.                  (* page.close() *)

(** Outcome of the try block's external calls: [ensureBrowserLoggedIn]
    throws; [page.goto] (or another page call) throws after the page was
    opened; or the page is evaluated and yields [ratingClass]. *)
Inductive ur_outcome :=
| UREnsureThrows
| URPageThrows
| URRatingClass (cls : option string).

Definition BASE_URL : string := "https://letterboxd.com".

Definition film_url (slug : string) : string :=
  BASE_URL +:+ "/film/" +:+ slug +:+ "/".

Definition userrating_key (username slug : string) : string :=
  "userrating:" +:+ username +:+ ":" +:+ slug.

Definition five_min : Z := 5 * 60 * 1000.

(** [parseInt(s, 10)] on the strings this code gives it: leading decimal
    digits; [None] stands for [NaN] (no leading digit). *)
Fixpoint digits_prefix (s : string) (acc : option Z) : option Z :=
  match s with
  | EmptyString => acc
  | String c rest =>
      let n := Z.of_nat (nat_of_ascii c) - 48 in
      if (0 <=? n) && (n <=? 9)
      then digits_prefix rest (Some (default 0 acc * 10 + n))
      else acc
  end.

Definition parseInt10 (s : string) : option Z := digits_prefix s None.

(** [s.startsWith(p)] *)
Fixpoint starts_with (p s : string) : bool :=
  match p, s with
  | EmptyString, _ => true
  | String a p', String b s' => Ascii.eqb a b && starts_with p' s'
  | _, _ => false
  end.

(** [cls.match(/rated-(\d+)/)]: the digits after the leftmost ["rated-"]
    that is followed by at least one digit. *)
Fixpoint match_rated (s : string) : option Z :=
  if starts_with "rated-" s then
    match parseInt10 (substring 6 (String.length s) s) with
    | Some v => Some v
    | None => match s with EmptyString => None | String _ r => match_rated r end
    end
  else match s with EmptyString => None | String _ r => match_rated r end.

(** JavaScript truthiness of the parsed [val]: [0] and [NaN] are falsy. *)
Definition truthy_num (v : option Z) : option Z :=
  match v with Some k => if k =? 0 then None else Some k | None => None end.

(** The tail of the try block once [ratingClass] is known: the value
    returned and the cache after it. *)
Definition ur_from_class (c : gmap string (entry jsval)) (now : Z) (key : string)
    (cls : option string) : jsval * gmap string (entry jsval) :=
  match cls with
  | None => (JNull, setCache c now key JNull five_min)
  | Some cl =>
      let parsed :=
        if starts_with "rateit:" cl
        then truthy_num (parseInt10 (substring 7 (String.length cl) cl))
        else match_rated cl in
      match parsed with
      | None => (JNull, setCache c now key JNull five_min)
      | Some val => (JHalves val, setCache c now key (JHalves val) five_min)
      end
  end.

(** [getUserRating(username, slug)] with [hasSession()] as [has_session]:
    the value returned, the cache after the call, and the browser effects. *)
Definition getUserRating (has_session : bool) (c : gmap string (entry jsval))
    (now : Z) (username slug : string) (out : ur_outcome)
    : jsval * gmap string (entry jsval) * list ur_effect :=
  let key := userrating_key username slug in
  let '(cached, c1) := getCache JNull c now key in
  match cached with
  | JHalves _ => (cached, c1, [])                 (* cached !== null *)
  | JNull =>
      if negb has_session then (JNull, setCache c1 now key JNull five_min, [])
      else
        match out with
        | UREnsureThrows => (JNull, c1, [UREnsureLoggedIn])
        | URPageThrows =>
            (JNull, c1, [UREnsureLoggedIn; URNewPage; URGoto (film_url slug); URClosePage])
        | URRatingClass cls =>
            let '(v, c2) := ur_from_class c1 now key cls in
            (v, c2, [UREnsureLoggedIn; URNewPage; URGoto (film_url slug);
                     UREvaluate; URClosePage])
        end
  end.

End UserRating.

(** ** The server module (src/unnamed/part_001): deduplication and queue *)

Module Server.

(** [deduplicateRating(imdbId, action)] over [recentRatings]: whether the
    request is accepted, and the map after the call.  [last &&] is
    JavaScript truthiness of the stored timestamp ([0] is falsy). *)
Definition dedup_key (imdbId action : string) : string :=
  imdbId +:+ ":" +:+ action.

Definition deduplicateRating (recentRatings : gmap string Z) (now : Z)
    (imdbId action : string) : bool * gmap string Z :=
  let key := dedup_key imdbId action in
  match recentRatings !! key with
  | Some last =>
      if negb (last =? 0) && (now - last <? 5000)
      then (false, recentRatings)
      else (true, <[key := now]> recentRatings)
  | None => (true, <[key := now]> recentRatings)
  end.

(** Several calls in a row, each with its own [Date.now()]: the answers. *)
Fixpoint dedup_run (m : gmap string Z) (calls : list (string * string * Z))
    : list bool * gmap string Z :=
  match calls with
  | [] => ([], m)
  | (imdbId, action, now) :: rest =>
      let '(ok, m1) := deduplicateRating m now imdbId action in
      let '(oks, m2) := dedup_run m1 rest in
      (ok :: oks, m2)
  end.

(** The single drain of [processPuppeteerQueue]: not running, awaiting the
    promise of job [j] ([await fn()]), or resuming after that promise
    settled (the continuation that calls [processPuppeteerQueue()] again). *)
Inductive drain (J : Type) :=
| DIdle
| DAwaiting (j : J)
| DResuming.
Arguments DIdle {J}.
Arguments DAwaiting {J} _.
Arguments DResuming {J}.

Record qstate (J : Type) := mkQ {
  puppeteerQueue : list J;
  puppeteerRunning : bool;
  drainer : drain J
}.
Arguments mkQ {J} _ _ _.
Arguments puppeteerQueue {J} _.
Arguments puppeteerRunning {J} _.
Arguments drainer {J} _.

(** Observable events: a job's [fn()] is called; its promise settles
    (resolved, or rejected when [threw]). *)
Inductive qevent (J : Type) :=
| Started (j : J)
| Finished (j : J) (threw : bool).
Arguments Started {J} _.
Arguments Finished {J} _ _.

(** What can happen next: a caller enqueues, the awaited job's promise
    settles, or the drain's continuation runs. *)
Inductive qop (J : Type) :=
| OpEnqueue (j : J)
| OpSettle (threw : bool)
| OpResume.
Arguments OpEnqueue {J} _.
Arguments OpSettle {J} _.
Arguments OpResume {J}.

Section Queue.
Context {J : Type}.

Definition q_init : qstate J := mkQ [] false DIdle.

(** [processPuppeteerQueue()] up to its [await]: the jobs of this code are
    [async] arrows, so [fn()] returns a promise and never throws
    synchronously. *)
Definition processPuppeteerQueue (s : qstate J) : qstate J * list (qevent J) :=
  match puppeteerQueue s with
  | [] => (mkQ [] false DIdle, [])
  | fn :: rest => (mkQ rest true (DAwaiting fn), [Started fn])
  end.

(** [enqueuePuppeteer(fn)] *)
Definition enqueuePuppeteer (s : qstate J) (fn : J) : qstate J * list (qevent J) :=
  let s1 := mkQ (puppeteerQueue s ++ [fn]) (puppeteerRunning s) (drainer s) in
  if puppeteerRunning s1 then (s1, []) else processPuppeteerQueue s1.

(** The awaited promise settles; the [try/catch] treats a rejection like
    a resolution (it only logs). *)
Definition settle (s : qstate J) (threw : bool) : qstate J * list (qevent J) :=
  match drainer s with
  | DAwaiting fn => (mkQ (puppeteerQueue s) (puppeteerRunning s) DResuming,
                     [Finished fn threw])
  | _ => (s, [])
  end.

Definition resume (s : qstate J) : qstate J * list (qevent J) :=
  match drainer s with
  | DResuming => processPuppeteerQueue s
  | _ => (s, [])
  end.

Definition q_step (s : qstate J) (op : qop J) : qstate J * list (qevent J) :=
  match op with
  | OpEnqueue fn => enqueuePuppeteer s fn
  | OpSettle threw => settle s threw
  | OpResume => resume s
  end.

Fixpoint q_run (s : qstate J) (ops : list (qop J)) : qstate J * list (qevent J) :=
  match ops with
  | [] => (s, [])
  | op :: ops' =>
      let '(s1, e1) := q_step s op in
      let '(s2, e2) := q_run s1 ops' in
      (s2, e1 ++ e2)
  end.

(** The jobs enqueued by a schedule, in order. *)
Fixpoint enqueued (ops : list (qop J)) : list J :=
  match ops with
  | [] => []
  | OpEnqueue fn :: ops' => fn :: enqueued ops'
  | _ :: ops' => enqueued ops'
  end.

(** A single-flight trace: each job started is finished before the next
    one starts; [cur] is the job in flight at the end, if any. *)
Definition trace_of (done : list (J * bool)) (cur : option J) : list (qevent J) :=
  flat_map (fun '(fn, threw) => [Started fn; Finished fn threw]) done
  ++ match cur with Some fn => [Started fn] | None => [] end.

Definition opt_list (cur : option J) : list J :=
  match cur with Some fn => [fn] | None => [] end.

(** How the drain's state and the job in flight ([cur]) fit together. *)
Definition q_inv (s : qstate J) (cur : option J) : Prop :=
  match drainer s with
  | DIdle => puppeteerQueue s = [] /\ puppeteerRunning s = false /\ cur = None
  | DAwaiting fn => puppeteerRunning s = true /\ cur = Some fn
  | DResuming => puppeteerRunning s = true /\ cur = None
  end.

End Queue.

End Server.

(** ** The browser session and the mutating actions (letterboxd.js) *)

Module Session.

Record browser_handle := mkBrowser { bid : nat; connected : bool }.

(** The module-level [let browser], [let browserLoggedIn], [let sessionCsrf];
    [next_bid] names the next launched browser. *)
Record session := mkSession {
  browser : option browser_handle;
  browserLoggedIn : bool;
  sessionCsrf : option string;
  next_bid : nat
}.

(** The value read from [RATING_MAP[String(starRating)]]: an own property
    of the object literal, a property inherited from [Object.prototype],
    or [undefined]. *)
Inductive rating_val :=
| RNum (n : Z)
| RInherited (name : string)
| RUndefined.

(** Effects visible outside the process, in order. *)
Inductive effect :=
| ELaunch (id : nat)                  (* puppeteer.launch *)
| ENewPage                            (* b.newPage() *)
| EGoto (url : string)                (* page.goto *)
| ELoginSubmit                        (* typing credentials, clicking submit *)
| EClosePage                          (* page.close() *)
| EFilmMeta (slug : string)           (* getFilmMeta(slug), with its own cache
                                         reads, writes and the lazy delete of an
                                         expired meta:{slug} entry *)
| EAxiosGet (url : string)            (* axios.get of the film page *)
| EPost (url : string) (rating : option rating_val) (csrf : string)
                                      (* the mutating fetch POST *)
| ECacheDelete (key : string).        (* cache.delete *)

(** Outcome of the sign-in transcript: some step throws (navigation or
    selector timeout), or the submit lands on [url] and the page yields the
    CSRF token [csrf] ([undefined] as [None]). *)
Inductive login_outcome :=
| LoginThrows
| LoginLands (url : string) (csrf : option string).

(** The parts of the POST response the code reads: [status], and whether
    [JSON.parse(body)] has [result === true] / [watchlisted === true]. *)
Record response := mkResponse {
  status : Z;
  result_true : bool;
  watchlisted_true : bool
}.

(** The outside world for one call. [w_post = None]: [page.goto] in
    [puppeteerPost] throws (e.g. a navigation timeout) before the fetch. *)
Record world := mkWorld {
  w_launch_ok : bool;
  w_creds : bool;                     (* username and password in .env *)
  w_login : login_outcome;
  w_film_id : option string;          (* the scraped [data-film-id]: the first
                                         element's, or body's when that one is
                                         missing or empty; [None] when the GET
                                         throws or neither has one *)
  w_post : option response
}.

Inductive result (A : Type) :=
| Ok (a : A)
| Throw (msg : string).
Arguments Ok {A} _.
Arguments Throw {A} _.

(** The [{ success, error }] object the actions return. *)
Inductive action_error :=
| ErrInvalidRating (input : string)
| ErrNoFilmId (slug : string)
| ErrUnexpected
| ErrHttp (status : Z)
| ErrException (msg : string).

Record action_result := mkResult { success : bool; error : option action_error }.

(** State, effects and exceptions: the async functions of the module. *)
Definition M (A : Type) : Type := session -> session * list effect * result A.

Definition ret {A} (a : A) : M A := fun s => (s, [], Ok a).
Definition bind {A B} (m : M A) (k : A -> M B) : M B :=
  fun s =>
    match m s with
    | (s1, e1, Ok a) => let '(s2, e2, r) := k a s1 in (s2, e1 ++ e2, r)
    | (s1, e1, Throw msg) => (s1, e1, Throw msg)
    end.
Definition throw {A} (msg : string) : M A := fun s => (s, [], Throw msg).
Definition emit (e : effect) : M unit := fun s => (s, [e], Ok tt).
Definition get_s : M session := fun s => (s, [], Ok s).
Definition put_s (s' : session) : M unit := fun _ => (s', [], Ok tt).
Definition try_catch {A} (m : M A) (h : string -> M A) : M A :=
  fun s =>
    match m s with
    | (s1, e1, Throw msg) => let '(s2, e2, r) := h msg s1 in (s2, e1 ++ e2, r)
    | ok => ok
    end.
(** [try { m } finally { fin }] with a [fin] that does not throw. *)
Definition try_finally {A} (m : M A) (fin : M unit) : M A :=
  fun s =>
    let '(s1, e1, r) := m s in
    let '(s2, e2, _) := fin s1 in
    (s2, e1 ++ e2, r).

Notation "x <- m ;; k" := (bind m (fun x => k))
  (at level 95, m at next level, right associativity).
Notation "m ;;; k" := (bind m (fun _ => k))
  (at level 95, right associativity).

Definition set_browser (b : option browser_handle) : M unit :=
  s <- get_s ;; put_s (mkSession b (browserLoggedIn s) (sessionCsrf s) (next_bid s)).
Definition set_logged_in (v : bool) : M unit :=
  s <- get_s ;; put_s (mkSession (browser s) v (sessionCsrf s) (next_bid s)).
Definition set_csrf (v : option string) : M unit :=
  s <- get_s ;; put_s (mkSession (browser s) (browserLoggedIn s) v (next_bid s)).

Definition BASE_URL : string := "https://letterboxd.com".

(** [s.includes(p)] *)
Fixpoint includes (s p : string) : bool :=
  UserRating.starts_with p s ||
  match s with EmptyString => false | String _ r => includes r p end.

(** [RATING_MAP] and the properties every object literal inherits from
    [Object.prototype] (all of them truthy: functions, and the prototype
    object for [__proto__]). *)
Definition RATING_MAP : list (string * Z) :=
  [("0.5", 1); ("1", 2); ("1.5", 3); ("2", 4); ("2.5", 5);
   ("3", 6); ("3.5", 7); ("4", 8); ("4.5", 9); ("5", 10)].

Definition object_prototype_props : list string :=
  ["constructor"; "__defineGetter__"; "__defineSetter__"; "hasOwnProperty";
   "__lookupGetter__"; "__lookupSetter__"; "isPrototypeOf";
   "propertyIsEnumerable"; "toString"; "valueOf"; "__proto__"; "toLocaleString"].

Fixpoint assoc (k : string) (l : list (string * Z)) : option Z :=
  match l with
  | [] => None
  | (k', v) :: l' => if String.eqb k k' then Some v else assoc k l'
  end.

Definition rating_map_get (key : string) : rating_val :=
  match assoc key RATING_MAP with
  | Some n => RNum n
  | None => if existsb (String.eqb key) object_prototype_props
            then RInherited key else RUndefined
  end.

Definition truthy (v : rating_val) : bool :=
  match v with RNum n => negb (n =? 0) | RInherited _ => true | RUndefined => false end.

(** A star rating as passed to [rateFilm]: the URL parameter (a string),
    or a number [k / 2] (held as [k]). *)
Inductive star_input :=
| StarStr (s : string)
| StarHalves (k : Z).

Fixpoint uint_to_string (d : Decimal.uint) : string :=
  match d with
  | Decimal.Nil => EmptyString
  | Decimal.D0 d' => String "0" (uint_to_string d')
  | Decimal.D1 d' => String "1" (uint_to_string d')
  | Decimal.D2 d' => String "2" (uint_to_string d')
  | Decimal.D3 d' => String "3" (uint_to_string d')
  | Decimal.D4 d' => String "4" (uint_to_string d')
  | Decimal.D5 d' => String "5" (uint_to_string d')
  | Decimal.D6 d' => String "6" (uint_to_string d')
  | Decimal.D7 d' => String "7" (uint_to_string d')
  | Decimal.D8 d' => String "8" (uint_to_string d')
  | Decimal.D9 d' => String "9" (uint_to_string d')
  end.

(** [String(k / 2)] for an integer [k] (below 10^21 in magnitude). *)
Definition halves_to_string (k : Z) : string :=
  (if k <? 0 then "-" else "") +:+
  uint_to_string (N.to_uint (Z.to_N (Z.abs k / 2))) +:+
  (if Z.odd k then ".5" else "").

Definition js_String (x : star_input) : string :=
  match x with StarStr s => s | StarHalves k => halves_to_string k end.

Section WithWorld.
Variable w : world.

(** [getBrowser()] *)
Definition getBrowser : M browser_handle :=
  s <- get_s ;;
  match browser s with
  | Some b => if connected b then ret b else
      (emit (ELaunch (next_bid s)) ;;;
       if w_launch_ok w then
         let b' := mkBrowser (next_bid s) true in
         put_s (mkSession (Some b') false (sessionCsrf s) (S (next_bid s))) ;;; ret b'
       else throw "launch failed")
  | None =>
      emit (ELaunch (next_bid s)) ;;;
      if w_launch_ok w then
        let b' := mkBrowser (next_bid s) true in
        put_s (mkSession (Some b') false (sessionCsrf s) (S (next_bid s))) ;;; ret b'
      else throw "launch failed"
  end.

(** The body of the sign-in [try] block. *)
Definition login_transcript : M unit :=
  emit (EGoto (BASE_URL +:+ "/sign-in/")) ;;;
  match w_login w with
  | LoginThrows => throw "sign-in page timeout"
  | LoginLands url csrf =>
      emit ELoginSubmit ;;;
      if includes url "/sign-in/"
      then throw "Login failed — still on sign-in page. Check credentials in .env."
      else set_csrf csrf ;;; set_logged_in true
  end.

(** [ensureBrowserLoggedIn()] *)
Definition ensureBrowserLoggedIn : M browser_handle :=
  b <- getBrowser ;;
  s <- get_s ;;
  if browserLoggedIn s then ret b else
  if negb (w_creds w)
  then throw "LETTERBOXD_USERNAME and LETTERBOXD_PASSWORD required in .env for rating"
  else emit ENewPage ;;; try_finally login_transcript (emit EClosePage) ;;; ret b.

(** JavaScript truthiness of the stored token. *)
Definition csrf_truthy (c : option string) : option string :=
  match c with Some t => if String.eqb t "" then None else Some t | None => None end.

(** [puppeteerPost(url, body)]; [rating] is [body.rating] ([None] for [{}]). *)
Definition puppeteerPost (url : string) (rating : option rating_val) : M response :=
  _ <- ensureBrowserLoggedIn ;;
  s <- get_s ;;
  match csrf_truthy (sessionCsrf s) with
  | None => throw "No CSRF token — login may have failed"
  | Some tok =>
      emit ENewPage ;;;
      try_finally
        (emit (EGoto (BASE_URL +:+ "/")) ;;;
         match w_post w with
         | None => throw "Navigation timeout"
         | Some r => emit (EPost url rating tok) ;;; ret r
         end)
        (emit EClosePage)
  end.

(** The [filmId] lookup shared by both actions: an axios GET whose errors
    are swallowed. *)
Definition fetch_film_id (slug : string) : M (option string) :=
  emit (EAxiosGet (BASE_URL +:+ "/film/" +:+ slug +:+ "/")) ;;; ret (w_film_id w).

(** [if (!filmId)]: JavaScript truthiness of the scraped id ([undefined]
    and the empty string are falsy). *)
Definition filmId_truthy (c : option string) : option string :=
  match c with Some t => if String.eqb t "" then None else Some t | None => None end.

Definition drop_session_on_403 (r : response) : M unit :=
  if status r =? 403 then set_logged_in false ;;; set_csrf None else ret tt.

(** [rateFilm(slug, starRating)]; [username] is [LETTERBOXD_USERNAME]. *)
Definition rateFilm (username slug : string) (starRating : star_input) : M action_result :=
  let ratingValue := rating_map_get (js_String starRating) in
  if negb (truthy ratingValue)
  then ret (mkResult false (Some (ErrInvalidRating (js_String starRating))))
  else
    try_catch
      (_ <- ensureBrowserLoggedIn ;;
       emit (EFilmMeta slug) ;;;
       filmId <- fetch_film_id slug ;;
       match filmId_truthy filmId with
       | None => ret (mkResult false (Some (ErrNoFilmId slug)))
       | Some fid =>
           r <- puppeteerPost (BASE_URL +:+ "/s/film:" +:+ fid +:+ "/rate/") (Some ratingValue) ;;
           if status r =? 200 then
             if result_true r then
               emit (ECacheDelete ("rating:" +:+ slug)) ;;;
               emit (ECacheDelete ("userrating:" +:+ username +:+ ":" +:+ slug)) ;;;
               ret (mkResult true None)
             else ret (mkResult false (Some ErrUnexpected))
           else drop_session_on_403 r ;;; ret (mkResult false (Some (ErrHttp (status r))))
       end)
      (fun msg =>
         set_browser None ;;; set_logged_in false ;;; set_csrf None ;;;
         ret (mkResult false (Some (ErrException msg)))).

(** [addToWatchlist(slug)] *)
Definition addToWatchlist (username slug : string) : M action_result :=
  try_catch
    (_ <- ensureBrowserLoggedIn ;;
     filmId <- fetch_film_id slug ;;
     match filmId_truthy filmId with
     | None => ret (mkResult false (Some (ErrNoFilmId slug)))
     | Some fid =>
         r <- puppeteerPost (BASE_URL +:+ "/s/film:" +:+ fid +:+ "/watchlist/") None ;;
         if status r =? 200 then
           if result_true r || watchlisted_true r then
             emit (ECacheDelete ("watchlist:" +:+ username)) ;;;
             ret (mkResult true None)
           else ret (mkResult false (Some ErrUnexpected))
         else drop_session_on_403 r ;;; ret (mkResult false (Some (ErrHttp (status r))))
     end)
    (fun msg => ret (mkResult false (Some (ErrException msg)))).

End WithWorld.

End Session.

(** ** Slug resolution: [resolveSlugFromImdb] (server) and
    [resolveSlugFromImdbViaPuppeteer] (letterboxd.js) *)

Module Resolver.

Import Session.

(** Outcome of one axios GET of [/film/imdb/{imdbId}/]: it throws, or it
    yields the URL the code reads (the final URL after redirects in the
    first attempt, the [og:url] content in the second; [''] when absent). *)
Inductive attempt :=
| AThrows (msg : string)
| AUrl (url : string).

(** [getWatchlist] catches every page error and [getFilmMeta] catches
    every fetch error (returning [imdbId: null]), so both are total here:
    the listing's slugs in site order, and the [imdbId] of each slug. *)
Record rworld := mkRWorld {
  rw_listing : list string;
  rw_meta : string -> option string;
  rw_redirect : attempt;
  rw_og : attempt
}.

Inductive reffect :=
| RListing                      (* getWatchlist(USERNAME) *)
| RMeta (slug : string)         (* getFilmMeta(film.slug) *)
| RFallback                     (* resolveSlugFromImdbViaPuppeteer(imdbId) *)
| RAxiosRedirect                (* first axios GET *)
| RAxiosOg.                     (* second axios GET *)

(** The run of non-[/] characters up to the next [/]; [None] when no [/]
    follows. *)
Fixpoint segment (s : string) : option string :=
  match s with
  | EmptyString => None
  | String c r => if Ascii.eqb c "/" then Some EmptyString
                  else option_map (String c) (segment r)
  end.

Definition film_prefix : string := "letterboxd.com/film/".

(** [url.match(/letterboxd\.com\/film\/([^/]+)\//)?.[1]]: the leftmost
    position where the pattern matches. *)
Fixpoint film_slug_of (s : string) : option string :=
  let here :=
    if UserRating.starts_with film_prefix s
    then match segment (substring (String.length film_prefix) (String.length s) s) with
         | Some (String c r) => Some (String c r)
         | _ => None
         end
    else None in
  match here with
  | Some slug => Some slug
  | None => match s with EmptyString => None | String _ r => film_slug_of r end
  end.

(** One attempt: [try { ...; if (match && match[1] !== 'imdb') return
    match[1]; } catch (err) { warn }]; [None] means fall through. *)
Definition attempt_slug (a : attempt) : option string :=
  match a with
  | AThrows _ => None
  | AUrl u => match film_slug_of u with
              | Some slug => if String.eqb slug "imdb" then None else Some slug
              | None => None
              end
  end.

(** [resolveSlugFromImdbViaPuppeteer(imdbId)]: effects and result. The
    [imdbId] only shapes the URL, which the oracles already answer for. *)
Definition resolveSlugFromImdbViaPuppeteer (rw : rworld)
    : list reffect * result (option string) :=
  match attempt_slug (rw_redirect rw) with
  | Some slug => ([RAxiosRedirect], Ok (Some slug))
  | None =>
      match attempt_slug (rw_og rw) with
      | Some slug => ([RAxiosRedirect; RAxiosOg], Ok (Some slug))
      | None => ([RAxiosRedirect; RAxiosOg], Ok None)
      end
  end.

(** The [for (const film of watchlist)] loop: the effects and the first
    slug whose [meta.imdbId === imdbId]. *)
Fixpoint scan (rw : rworld) (imdbId : string) (films : list string)
    : list reffect * option string :=
  match films with
  | [] => ([], None)
  | slug :: rest =>
      if bool_decide (rw_meta rw slug = Some imdbId)
      then ([RMeta slug], Some slug)
      else let '(e, r) := scan rw imdbId rest in (RMeta slug :: e, r)
  end.

(** [resolveSlugFromImdb(imdbId)] with [imdbToSlugCache]: the map after
    the call, the effects, and the result ([Throw] would be a rejected
    promise). *)
Definition resolveSlugFromImdb (rw : rworld) (imdbToSlugCache : gmap string string)
    (imdbId : string) : gmap string string * list reffect * result (option string) :=
  match imdbToSlugCache !! imdbId with
  | Some slug => (imdbToSlugCache, [], Ok (Some slug))
  | None =>
      let '(e_scan, hit) := scan rw imdbId (rw_listing rw) in
      match hit with
      | Some slug => (<[imdbId := slug]> imdbToSlugCache, RListing :: e_scan, Ok (Some slug))
      | None =>
          let '(e_fb, r) := resolveSlugFromImdbViaPuppeteer rw in
          let tr := RListing :: e_scan ++ RFallback :: e_fb in
          match r with
          | Ok (Some slug) =>
              if String.eqb slug "" then (imdbToSlugCache, tr, r)
              else (<[imdbId := slug]> imdbToSlugCache, tr, r)
          | _ => (imdbToSlugCache, tr, r)
          end
      end
  end.

End Resolver.

(** ** The watchlist routes of the server module and what its jobs call *)

Module Routes.

(** [module.exports] of letterboxd.js: the names it defines. *)
Definition letterboxd_exports : list string :=
  ["getWatchlist"; "getFilmMeta"; "getUserRating"; "rateFilm"; "addToWatchlist";
   "hasSession"; "getFromCache"; "resolveSlugFromImdbViaPuppeteer"].

(** [const { ..., name, ... } = require('./letterboxd')]: the export, or
    [undefined] ([None]) when the module has no such property. *)
Definition require_binding (name : string) : option string :=
  if existsb (String.eqb name) letterboxd_exports then Some name else None.

(** Evaluating a call [f(slug)]: calling [undefined] throws a [TypeError]
    before any callee code runs. *)
Inductive call_result :=
| CallTypeError
| CallInvoked (f : string).

Definition call_binding (b : option string) : call_result :=
  match b with None => CallTypeError | Some f => CallInvoked f end.

(** The jobs the routes enqueue. *)
Inductive job :=
| JobRate (slug stars : string)
| JobWatchAdd (slug : string)
| JobWatchRemove (slug : string).

(** The first thing each job's [async] arrow does: call its action. *)
Definition job_call (j : job) : call_result :=
  match j with
  | JobRate _ _ => call_binding (require_binding "rateFilm")
  | JobWatchAdd _ => call_binding (require_binding "addToWatchlist")
  | JobWatchRemove _ => call_binding (require_binding "removeFromWatchlist")
  end.

(** The mutating letterboxd.js actions a job reaches.  A job whose call
    throws reaches none, and its [async] arrow's promise rejects. *)
Definition job_reaches (j : job) : list string :=
  match job_call j with CallTypeError => [] | CallInvoked f => [f] end.

Definition job_rejects (j : job) : bool :=
  match job_call j with CallTypeError => true | CallInvoked _ => false end.

(** [app.get('/watchlist/remove/:imdbId', ...)] after [serveM3U8]: the
    dedup map afterwards and the job handed to [enqueuePuppeteer], if any.
    [resolved] is how [resolveSlugFromImdb(imdbId)] settles. *)
Definition route_watchlist_remove (has_session : bool) (m : gmap string Z) (now : Z)
    (imdbId : string) (resolved : Session.result (option string))
    : gmap string Z * option job :=
  if negb has_session then (m, None) else
  let '(ok, m1) := Server.deduplicateRating m now imdbId "watchlist-remove" in
  if negb ok then (m1, None) else
  match resolved with
  | Session.Ok (Some slug) =>
      if String.eqb slug "" then (m1, None) else (m1, Some (JobWatchRemove slug))
  | Session.Ok None => (m1, None)          (* "Could not resolve slug" *)
  | Session.Throw _ => (m1, None)          (* .catch logs *)
  end.

End Routes.

(** ** The watchlist listing and film metadata (letterboxd.js) *)

Module Listing.

(** [{ slug, title, filmId }] as pushed by [fetchWatchlistPage]. *)
Record film := mkFilm { slug : string; title : string; filmId : option string }.

(** One call of [fetchWatchlistPage(username, page)]: it throws (network,
    timeout), or it yields the page's films and whether an [a.next] link
    exists. *)
Inductive page_outcome :=
| PageThrows
| PageOk (films : list film) (hasNext : bool).

(** The [while (hasNext)] loop of [getWatchlist] from page [page]: the films
    collected and the pages requested.  [fuel] bounds the number of
    iterations (the statements below give enough of it). *)
Fixpoint watchlist_loop (fetch : Z -> page_outcome) (fuel : nat) (page : Z)
    : list film * list Z :=
  match fuel with
  | O => ([], [])
  | S f =>
      match fetch page with
      | PageThrows => ([], [page])                      (* catch: break *)
      | PageOk fs hasNext =>
          if hasNext then
            let '(rest, pages) := watchlist_loop fetch f (page + 1) in
            (fs ++ rest, page :: pages)
          else (fs, [page])
      end
  end.

Definition watchlist_key (username : string) : string := "watchlist:" +:+ username.

(** [getWatchlist(username)]: the films, the cache after the call, and the
    pages requested.  The cache holds the array ([Some]) or [null] ([None]);
    an array, even an empty one, is truthy.  [now] is [Date.now()] at the
    read, [t_end] at the final [setCache]. *)
Definition getWatchlist (fetch : Z -> page_outcome) (fuel : nat)
    (c : gmap string (entry (option (list film)))) (now t_end : Z) (username : string)
    : list film * gmap string (entry (option (list film))) * list Z :=
  let key := watchlist_key username in
  let '(cached, c1) := getCache None c now key in
  match cached with
  | Some fs => (fs, c1, [])
  | None =>
      let '(fs, pages) := watchlist_loop fetch fuel 1 in
      (fs, setCache c1 t_end key (Some fs) UserRating.five_min, pages)
  end.

(** [{ imdbId, year, poster, description }]; [null] as [None]. *)
Record meta := mkMeta {
  imdbId : option string;
  year : option string;
  poster : option string;
  description : option string
}.

Definition meta_null : meta := mkMeta None None None None.

(** The try block of [getFilmMeta]: the GET or the parsing throws, or the
    page yields the fields the code extracts from it. *)
Inductive meta_outcome :=
| MetaThrows
| MetaPage (m : meta).

Definition meta_key (slug : string) : string := "meta:" +:+ slug.

Definition six_hours : Z := 6 * 60 * 60 * 1000.

(** [getFilmMeta(slug)]: the meta, the cache after the call, and the URLs
    fetched.  A meta object is always truthy, so any cached one is
    returned. *)
Definition getFilmMeta (out : meta_outcome) (c : gmap string (entry (option meta)))
    (now t_end : Z) (slug : string)
    : meta * gmap string (entry (option meta)) * list string :=
  let key := meta_key slug in
  let '(cached, c1) := getCache None c now key in
  match cached with
  | Some m => (m, c1, [])
  | None =>
      let url := UserRating.film_url slug in
      match out with
      | MetaThrows => (meta_null, c1, [url])
      | MetaPage m => (m, setCache c1 t_end key (Some m) six_hours, [url])
      end
  end.

End Listing.

(** ** The catalog and stream handlers of the server module *)

Module Handlers.
Import Listing.

(** [arr.slice(start, end)] with [NaN] as [None]: a negative index counts
    from the end, [NaN] is [0]. *)
Definition rel_index (len : Z) (x : option Z) : Z :=
  match x with
  | None => 0
  | Some v => if v <? 0 then Z.max (len + v) 0 else Z.min v len
  end.

Definition js_slice {A} (l : list A) (start stop : option Z) : list A :=
  let len := Z.of_nat (length l) in
  let from := rel_index len start in
  let to := rel_index len stop in
  take (Z.to_nat (to - from)) (drop (Z.to_nat from) l).

(** The fields of a catalog entry this model keeps: [id], [name] and
    [poster] ([type] is the constant ['movie']; [year] and [description]
    are copied from the meta). *)
Record cmeta := mkCMeta { cm_id : string; cm_name : string; cm_poster : string }.

Definition poster_url (id : string) : string :=
  "https://images.metahub.space/poster/medium/" +:+ id +:+ "/img".

(** The arrow mapped over a batch; [null] as [None].  [metaOf] is what
    [getFilmMeta] returns for a slug (it catches its own errors). *)
Definition catalog_entry (metaOf : string -> meta) (f : film) : option cmeta :=
  match imdbId (metaOf (slug f)) with
  | None => None
  | Some id => if String.eqb id "" then None
               else Some (mkCMeta id (title f) (poster_url id))
  end.

(** The [for (i = 0; i < pageFilms.length; i += CONCURRENCY)] loop:
    [Promise.all] keeps the batch's order, [filter(Boolean)] drops the
    [null]s. *)
Fixpoint catalog_batches (fuel : nat) (metaOf : string -> meta) (l : list film)
    : list cmeta :=
  match fuel with
  | O => []
  | S f =>
      match l with
      | [] => []
      | _ :: _ => omap (catalog_entry metaOf) (take 5 l)
                  ++ catalog_batches f metaOf (drop 5 l)
      end
  end.

(** The catalog handler's [metas], once [getWatchlist] has returned
    [films]; [skip] is [parseInt(extra?.skip || '0', 10)] ([NaN] as
    [None]).  The handler also records each [imdbId -> slug] pair in
    [imdbToSlugCache]; that side effect is not part of this model. *)
Definition catalog (type id : string) (skip : option Z) (films : list film)
    (metaOf : string -> meta) : list cmeta :=
  if negb (String.eqb type "movie") || negb (String.eqb id "letterboxd-watchlist")
  then []
  else
    let pageFilms := js_slice films skip (option_map (fun k => k + 100) skip) in
    catalog_batches (length pageFilms) metaOf pageFilms.

(** The [stars] of [STAR_OPTIONS], in order. *)
Definition STAR_OPTIONS : list string :=
  ["5"; "4.5"; "4"; "3.5"; "3"; "2.5"; "2"; "1.5"; "1"; "0.5"].

End Handlers.

(** ** The rate and watchlist-add routes *)

Module Routes2.
Import Routes.

(** [app.get('/rate/:imdbId/:stars', ...)]: the dedup map afterwards and
    the job enqueued, if any. *)
Definition route_rate (has_session : bool) (m : gmap string Z) (now : Z)
    (imdbId stars : string) (resolved : Session.result (option string))
    : gmap string Z * option job :=
  if negb has_session then (m, None) else
  let '(ok, m1) := Server.deduplicateRating m now imdbId stars in
  if negb ok then (m1, None) else
  match resolved with
  | Session.Ok (Some slug) =>
      if String.eqb slug "" then (m1, None) else (m1, Some (JobRate slug stars))
  | Session.Ok None => (m1, None)
  | Session.Throw _ => (m1, None)
  end.

(** [app.get('/watchlist/add/:imdbId', ...)] *)
Definition route_watchlist_add (has_session : bool) (m : gmap string Z) (now : Z)
    (imdbId : string) (resolved : Session.result (option string))
    : gmap string Z * option job :=
  if negb has_session then (m, None) else
  let '(ok, m1) := Server.deduplicateRating m now imdbId "watchlist-add" in
  if negb ok then (m1, None) else
  match resolved with
  | Session.Ok (Some slug) =>
      if String.eqb slug "" then (m1, None) else (m1, Some (JobWatchAdd slug))
  | Session.Ok None => (m1, None)
  | Session.Throw _ => (m1, None)
  end.

(** The drain after the job in flight: its promise settles (with [threw]),
    the continuation runs; once per outcome. *)
Fixpoint drain_ops {J} (outcomes : list bool) : list (Server.qop J) :=
  match outcomes with
  | [] => []
  | t :: ts => Server.OpSettle t :: Server.OpResume :: drain_ops ts
  end.

End Routes2.

(** ** Properties of effect traces of the session actions *)

Module Effects.
Import Session.

(** Pages opened minus pages closed. *)
Definition page_delta (e : effect) : Z :=
  match e with ENewPage => 1 | EClosePage => -1 | _ => 0 end.

Definition open_pages (l : list effect) : Z := fold_right (fun e n => page_delta e + n) 0 l.

(** A POST carries a non-empty CSRF token. *)
Definition post_has_token (e : effect) : Prop :=
  match e with EPost _ _ tok => tok <> EmptyString | _ => True end.

Definition is_post (e : effect) : bool :=
  match e with EPost _ _ _ => true | _ => false end.

Definition is_cache_delete (e : effect) : bool :=
  match e with ECacheDelete _ => true | _ => false end.

(** Properties of effect lists that hold of [[]] and of appends. *)
Definition monoid_inv (P : list effect -> Prop) : Prop :=
  P [] /\ forall a b, P a -> P b -> P (a ++ b).

(** Every run of [m], from any session, emits effects satisfying [P]. *)
Definition keeps {A} (P : list effect -> Prop) (m : M A) : Prop :=
  forall s, P (snd (fst (m s))).

(** The navigation to the sign-in page in [ensureBrowserLoggedIn]. *)
Definition signin : effect := EGoto (BASE_URL +:+ "/sign-in/").

End Effects.

(** A URL path segment: no ['/'] in it. *)
Module SlugText.
Definition no_slash (x : string) : Prop := Forall (fun c => c <> "/"%char) (list_ascii_of_string x).
End SlugText.

(** ** Concrete sessions and worlds used by the evaluations below *)

Module Scenarios.
Import Session.

Definition b0 : browser_handle := mkBrowser 0 true.

(** Logged in, browser connected, token captured. *)
Definition s_logged : session := mkSession (Some b0) true (Some "csrf-token") 1.

Definition w_with_post (r : option response) : world :=
  mkWorld true true (LoginLands "https://letterboxd.com/" (Some "csrf-token"))
    (Some "51568") r.

(** Everything succeeds with [{"result": true}]. *)
Definition w_ok : world := w_with_post (Some (mkResponse 200 true false)).

(** The POST is answered with HTTP 403. *)
Definition w_403 : world := w_with_post (Some (mkResponse 403 false false)).

(** [page.goto] in [puppeteerPost] times out. *)
Definition w_goto_fails : world := w_with_post None.

(** A listing of two films, with their IMDb ids; both redirect attempts of
    the fallback fail. *)
Definition rw_two_films : Resolver.rworld :=
  Resolver.mkRWorld ["heat-1995"; "interstellar"]
    (fun slug => if String.eqb slug "heat-1995" then Some "tt0113277"
                 else if String.eqb slug "interstellar" then Some "tt0816692" else None)
    (Resolver.AThrows "timeout") (Resolver.AThrows "timeout").

Definition rate_url : string := BASE_URL +:+ "/s/film:51568/rate/".

(** A two-page watchlist: [heat-1995] on page 1, [interstellar] on page 2. *)
Definition wl_f1 : Listing.film := Listing.mkFilm "heat-1995" "Heat" (Some "51568").
Definition wl_f2 : Listing.film := Listing.mkFilm "interstellar" "Interstellar" None.
Definition wl_fetch (p : Z) : Listing.page_outcome :=
  if p =? 1 then Listing.PageOk [wl_f1] true else if p =? 2 then Listing.PageOk [wl_f2] false else Listing.PageThrows.

End Scenarios.

(** * Properties *)

(** ** Small evaluations of the embedding *)

Example cache_example :
  fst (getCache JNull (setCache ∅ 0 "k" (JHalves 7) 1000) 999 "k") = JHalves 7
  /\ fst (getCache JNull (setCache ∅ 0 "k" (JHalves 7) 1000) 1001 "k") = JNull.
Proof. split; reflexivity. Qed.

Example dedup_example :
  fst (Server.dedup_run ∅ [("tt1", "5", 1000); ("tt1", "5", 1200); ("tt1", "4", 1300);
                           ("tt1", "5", 6000)]) = [true; false; true; true].
Proof. reflexivity. Qed.

Example parse_example :
  UserRating.match_rated "rating rated-8" = Some 8
  /\ UserRating.parseInt10 "10" = Some 10.
Proof. split; reflexivity. Qed.

(** ** The TTL cache *)

(** C6 (counterexample): one millisecond-exact read at the expiry instant
    still returns the stored value, not [null]. *)
Lemma cache_value_at_expiry_instant :
  fst (getCache JNull (setCache ∅ 0 "meta:heat-1995" (JHalves 8) 1000) 1000 "meta:heat-1995")
    = JHalves 8
  /\ JHalves 8 <> JNull.
Proof. split; [reflexivity | discriminate]. Qed.

(** C6: after [setCache(k, v, ttl)] at time [t], [getCache(k)] at [now]
    returns [v] (the map unchanged) while [now <= t + ttl], and [null]
    with [k] deleted once [now > t + ttl]; a second [setCache] on [k]
    replaces the first (value and expiry). *)
Theorem cache_set_get {V : Type} (js_null : V) (c : gmap string (entry V))
    (t : Z) (k : string) (v : V) (ttl now : Z) :
  getCache js_null (setCache c t k v ttl) now k =
    (if now <=? t + ttl then (v, setCache c t k v ttl)
     else (js_null, delete k (setCache c t k v ttl)))
  /\ (forall t' v' ttl',
        setCache (setCache c t k v ttl) t' k v' ttl' = setCache c t' k v' ttl').
Proof.
  split.
  - unfold getCache. unfold setCache at 1. rewrite lookup_insert_eq. simpl.
    destruct (Z.ltb_spec (t + ttl) now), (Z.leb_spec now (t + ttl)); try lia; reflexivity.
  - intros t' v' ttl'. unfold setCache. apply insert_insert_eq.
Qed.

(** ** getUserRating's null cache entry *)

Lemma getCache_fresh {V : Type} (js_null : V) (c : gmap string (entry V))
    (t : Z) (k : string) (v : V) (ttl now : Z) :
  now <= t + ttl -> getCache js_null (setCache c t k v ttl) now k = (v, setCache c t k v ttl).
Proof.
  intros H. unfold getCache. unfold setCache at 1. rewrite lookup_insert_eq. simpl.
  destruct (Z.ltb_spec (t + ttl) now); [lia|reflexivity].
Qed.

Lemma getCache_deleted {V : Type} (js_null : V) (c : gmap string (entry V))
    (now : Z) (k : string) :
  getCache js_null (delete k c) now k = (js_null, delete k c).
Proof. unfold getCache. rewrite lookup_delete_eq. reflexivity. Qed.

Lemma ur_from_class_value (c c' : gmap string (entry jsval)) (now : Z) (key : string)
    (cls : option string) :
  fst (UserRating.ur_from_class c now key cls) = fst (UserRating.ur_from_class c' now key cls).
Proof.
  unfold UserRating.ur_from_class. destruct cls as [cl|]; [|reflexivity].
  destruct (if UserRating.starts_with "rateit:" cl then _ else _); reflexivity.
Qed.

(** C10: with a session configured, a [null] rating cached at [t] and read
    within its five minutes does not stop [getUserRating]: the call
    returns the same value and performs the same browser effects as with
    no entry at all, starting with [ensureBrowserLoggedIn]. *)
Theorem getUserRating_null_entry_refetches (c : gmap string (entry jsval))
    (t now : Z) (username slug : string) (out : UserRating.ur_outcome)
    (Hfresh : t <= now <= t + UserRating.five_min) :
  let key := UserRating.userrating_key username slug in
  let c1 := setCache c t key JNull UserRating.five_min in
  let r_entry := UserRating.getUserRating true c1 now username slug out in
  let r_miss := UserRating.getUserRating true (delete key c1) now username slug out in
  fst (fst r_entry) = fst (fst r_miss)
  /\ snd r_entry = snd r_miss
  /\ head (snd r_entry) = Some UserRating.UREnsureLoggedIn.
Proof.
  cbv zeta. unfold UserRating.getUserRating.
  rewrite getCache_fresh by lia. rewrite getCache_deleted. simpl.
  destruct out as [| |cls]; [repeat split; reflexivity | repeat split; reflexivity |].
  pose proof (ur_from_class_value
    (setCache c t (UserRating.userrating_key username slug) JNull UserRating.five_min)
    (delete (UserRating.userrating_key username slug)
       (setCache c t (UserRating.userrating_key username slug) JNull UserRating.five_min))
    now (UserRating.userrating_key username slug) cls) as Hv.
  destruct (UserRating.ur_from_class (setCache _ _ _ _ _) _ _ _) as [v1 c2].
  destruct (UserRating.ur_from_class (delete _ _) _ _ _) as [v2 c3].
  simpl in Hv |- *. subst. repeat split; reflexivity.
Qed.

Lemma getUserRating_null_entry_refetches_witness :
  0 <= 1000 <= 0 + UserRating.five_min
  /\ head (snd (UserRating.getUserRating true
        (setCache ∅ 0 (UserRating.userrating_key "snuffalobill" "heat-1995") JNull
           UserRating.five_min) 1000 "snuffalobill" "heat-1995"
        (UserRating.URRatingClass None))) = Some UserRating.UREnsureLoggedIn.
Proof.
  split; [unfold UserRating.five_min; lia|].
  exact (proj2 (proj2 (getUserRating_null_entry_refetches ∅ 0 1000 "snuffalobill"
    "heat-1995" (UserRating.URRatingClass None) ltac:(unfold UserRating.five_min; lia)))).
Defined.

(** ** Deduplication *)

(** C2 (counterexample): two different [(imdbId, action)] pairs that join
    to the same key string share one entry: the first call ever made with
    [("tt0816692", "4:5")] is rejected. *)
Lemma dedup_joined_key_collision :
  let '(ok1, m1) := Server.deduplicateRating ∅ 1000 "tt0816692:4" "5" in
  let '(ok2, _) := Server.deduplicateRating m1 2000 "tt0816692" "4:5" in
  ok1 = true /\ ok2 = false.
Proof. split; reflexivity. Qed.

Lemma dedup_accept_new (m : gmap string Z) (now : Z) (imdbId action : string) :
  m !! Server.dedup_key imdbId action = None ->
  Server.deduplicateRating m now imdbId action
    = (true, <[Server.dedup_key imdbId action := now]> m).
Proof. intros H. unfold Server.deduplicateRating. rewrite H. reflexivity. Qed.

Lemma dedup_reject_within (m : gmap string Z) (now last : Z) (imdbId action : string) :
  m !! Server.dedup_key imdbId action = Some last -> 0 < last -> now - last < 5000 ->
  Server.deduplicateRating m now imdbId action = (false, m).
Proof.
  intros H Hpos Hwin. unfold Server.deduplicateRating. rewrite H.
  destruct (Z.eqb_spec last 0); [lia|]. destruct (Z.ltb_spec (now - last) 5000); [|lia].
  reflexivity.
Qed.

Lemma dedup_accept_after (m : gmap string Z) (now last : Z) (imdbId action : string) :
  m !! Server.dedup_key imdbId action = Some last -> 5000 <= now - last ->
  Server.deduplicateRating m now imdbId action
    = (true, <[Server.dedup_key imdbId action := now]> m).
Proof.
  intros H Hwin. unfold Server.deduplicateRating. rewrite H.
  destruct (Z.ltb_spec (now - last) 5000); [lia|]. rewrite andb_false_r. reflexivity.
Qed.

(** C2: per key string [imdbId + ':' + action]: a call with no entry is
    accepted and records [now]; a call within 5000 ms of a recorded
    (positive) time is rejected and changes nothing; a call 5000 ms or more
    after it is accepted and records [now].  The spec's scenario: one
    acceptance, four rejections, then acceptance after the window. *)
Theorem dedup_per_key (m : gmap string Z) (now : Z) (imdbId action : string) :
  let key := Server.dedup_key imdbId action in
  (m !! key = None ->
     Server.deduplicateRating m now imdbId action = (true, <[key := now]> m))
  /\ (forall last, m !! key = Some last -> 0 < last -> now - last < 5000 ->
     Server.deduplicateRating m now imdbId action = (false, m))
  /\ (forall last, m !! key = Some last -> 5000 <= now - last ->
     Server.deduplicateRating m now imdbId action = (true, <[key := now]> m))
  /\ (forall t, 0 < t ->
     fst (Server.dedup_run ∅ [(imdbId, action, t); (imdbId, action, t + 1);
            (imdbId, action, t + 2); (imdbId, action, t + 3);
            (imdbId, action, t + 4); (imdbId, action, t + 5000)])
     = [true; false; false; false; false; true]).
Proof.
  cbv zeta. repeat split.
  - apply dedup_accept_new.
  - intros last H Hpos Hwin. exact (dedup_reject_within m now last imdbId action H Hpos Hwin).
  - intros last H Hwin. exact (dedup_accept_after m now last imdbId action H Hwin).
  - intros t Ht. cbn [Server.dedup_run].
    rewrite (dedup_accept_new ∅ t imdbId action (lookup_empty _)). cbv beta iota.
    rewrite (dedup_reject_within _ (t + 1) t imdbId action (lookup_insert_eq _ _ _) Ht)
      by lia. cbv beta iota.
    rewrite (dedup_reject_within _ (t + 2) t imdbId action (lookup_insert_eq _ _ _) Ht)
      by lia. cbv beta iota.
    rewrite (dedup_reject_within _ (t + 3) t imdbId action (lookup_insert_eq _ _ _) Ht)
      by lia. cbv beta iota.
    rewrite (dedup_reject_within _ (t + 4) t imdbId action (lookup_insert_eq _ _ _) Ht)
      by lia. cbv beta iota.
    rewrite (dedup_accept_after _ (t + 5000) t imdbId action (lookup_insert_eq _ _ _))
      by lia. reflexivity.
Qed.

(** ** The action queue *)

Section QueueProofs.
Context {J : Type}.
Import Server.

Lemma trace_of_start (done : list (J * bool)) (fn : J) :
  trace_of done None ++ [Started fn] = trace_of done (Some fn).
Proof. unfold trace_of. rewrite app_nil_r. reflexivity. Qed.

Lemma trace_of_finish (done : list (J * bool)) (fn : J) (threw : bool) :
  trace_of done (Some fn) ++ [Finished fn threw] = trace_of (done ++ [(fn, threw)]) None.
Proof.
  unfold trace_of. rewrite flat_map_app. simpl. rewrite <- !app_assoc. reflexivity.
Qed.

Lemma q_step_inv (s : qstate J) (done : list (J * bool)) (cur : option J) (op : qop J)
    (s1 : qstate J) (e : list (qevent J)) :
  q_inv s cur -> q_step s op = (s1, e) ->
  exists done' cur',
    trace_of done cur ++ e = trace_of done' cur'
    /\ map fst done ++ opt_list cur ++ puppeteerQueue s ++ enqueued [op]
       = map fst done' ++ opt_list cur' ++ puppeteerQueue s1
    /\ q_inv s1 cur'.
Proof.
  intros Hinv Hstep. unfold q_inv in Hinv.
  destruct s as [q running d]; simpl in Hinv.
  destruct op as [fn | threw |]; simpl in Hstep.
  - unfold enqueuePuppeteer in Hstep; simpl in Hstep.
    destruct running.
    + injection Hstep as <- <-. exists done, cur. rewrite app_nil_r.
      split; [reflexivity|]. split.
      * simpl. rewrite <- ?app_assoc. reflexivity.
      * unfold q_inv; simpl. destruct d; intuition congruence.
    + destruct d as [| fn' |]; [| destruct Hinv; discriminate | destruct Hinv; discriminate].
      destruct Hinv as (-> & _ & ->).
      unfold processPuppeteerQueue in Hstep; simpl in Hstep.
      injection Hstep as <- <-. exists done, (Some fn).
      split; [apply trace_of_start|]. split; [reflexivity|]. unfold q_inv; simpl; auto.
  - unfold settle in Hstep; simpl in Hstep.
    destruct d as [| fn' |].
    + injection Hstep as <- <-. exists done, cur. rewrite app_nil_r.
      split; [reflexivity|]. split; [simpl; rewrite app_nil_r; reflexivity|].
      unfold q_inv; simpl; auto.
    + injection Hstep as <- <-. destruct Hinv as [Hr ->].
      exists (done ++ [(fn', threw)]), None.
      split; [apply trace_of_finish|]. split.
      * simpl. rewrite map_app, app_nil_r. simpl. rewrite <- app_assoc. reflexivity.
      * unfold q_inv; simpl; auto.
    + injection Hstep as <- <-. exists done, cur. rewrite app_nil_r.
      split; [reflexivity|]. split; [simpl; rewrite app_nil_r; reflexivity|].
      unfold q_inv; simpl; auto.
  - unfold resume in Hstep; simpl in Hstep.
    destruct d as [| fn' |].
    + injection Hstep as <- <-. exists done, cur. rewrite app_nil_r.
      split; [reflexivity|]. split; [simpl; rewrite app_nil_r; reflexivity|].
      unfold q_inv; simpl; auto.
    + injection Hstep as <- <-. exists done, cur. rewrite app_nil_r.
      split; [reflexivity|]. split; [simpl; rewrite app_nil_r; reflexivity|].
      unfold q_inv; simpl; auto.
    + destruct Hinv as [_ ->]. unfold processPuppeteerQueue in Hstep; simpl in Hstep.
      destruct q as [| fn rest].
      * injection Hstep as <- <-. exists done, None. rewrite app_nil_r.
        split; [reflexivity|]. split; [reflexivity|]. unfold q_inv; simpl; auto.
      * injection Hstep as <- <-. exists done, (Some fn).
        split; [apply trace_of_start|]. split.
        -- simpl. rewrite app_nil_r. reflexivity.
        -- unfold q_inv; simpl; auto.
Qed.

Lemma enqueued_cons (op : qop J) (ops : list (qop J)) :
  enqueued (op :: ops) = enqueued [op] ++ enqueued ops.
Proof. destruct op; reflexivity. Qed.

Lemma q_run_inv (ops : list (qop J)) :
  forall (s : qstate J) (done : list (J * bool)) (cur : option J) s' tr,
  q_inv s cur -> q_run s ops = (s', tr) ->
  exists done' cur',
    trace_of done cur ++ tr = trace_of done' cur'
    /\ map fst done ++ opt_list cur ++ puppeteerQueue s ++ enqueued ops
       = map fst done' ++ opt_list cur' ++ puppeteerQueue s'
    /\ q_inv s' cur'.
Proof.
  induction ops as [| op ops IH]; intros s done cur s' tr Hinv Hrun.
  - simpl in Hrun. injection Hrun as <- <-. exists done, cur.
    rewrite !app_nil_r. auto.
  - simpl in Hrun. destruct (q_step s op) as [s1 e1] eqn:Hs.
    destruct (q_run s1 ops) as [s2 e2] eqn:Hr. injection Hrun as <- <-.
    destruct (q_step_inv s done cur op s1 e1 Hinv Hs) as (d1 & c1 & Ht1 & Hq1 & Hi1).
    destruct (IH s1 d1 c1 s2 e2 Hi1 Hr) as (d2 & c2 & Ht2 & Hq2 & Hi2).
    exists d2, c2. split.
    + rewrite app_assoc, Ht1. exact Ht2.
    + split; [| exact Hi2].
      rewrite enqueued_cons, !app_assoc. rewrite !app_assoc in Hq1. rewrite Hq1.
      rewrite <- !app_assoc. exact Hq2.
Qed.

End QueueProofs.

(** C1: under every interleaving of enqueues, promise settlements and
    drain continuations, the queue's trace is single-flight (each started
    job settles before the next one starts) and FIFO (the jobs started are,
    in order, the first ones enqueued; the rest wait in the queue in
    enqueue order); a job never waits while the drain is idle. *)
Theorem queue_single_flight_fifo {J : Type} (ops : list (Server.qop J)) :
  let '(s, tr) := Server.q_run Server.q_init ops in
  exists (done : list (J * bool)) (cur : option J),
    tr = Server.trace_of done cur
    /\ map fst done ++ Server.opt_list cur ++ Server.puppeteerQueue s = Server.enqueued ops
    /\ (Server.drainer s = Server.DIdle -> Server.puppeteerQueue s = [])
    /\ (forall fn, Server.drainer s = Server.DAwaiting fn -> cur = Some fn).
Proof.
  destruct (Server.q_run Server.q_init ops) as [s tr] eqn:Hrun.
  assert (Hinit : Server.q_inv (@Server.q_init J) None) by (unfold Server.q_inv; simpl; auto).
  destruct (q_run_inv ops Server.q_init [] None s tr Hinit Hrun) as (d & c & Ht & Hq & Hi).
  exists d, c. simpl in Ht, Hq. split; [exact Ht|]. split; [symmetry; exact Hq|].
  unfold Server.q_inv in Hi. split.
  - intros Hd. rewrite Hd in Hi. tauto.
  - intros fn Hd. rewrite Hd in Hi. tauto.
Qed.

(** ** Rating values *)

Lemma rating_map_half_stars (k : Z) :
  1 <= k <= 10 -> Session.rating_map_get (Session.js_String (Session.StarHalves k)) = Session.RNum k.
Proof.
  intros Hk.
  assert (k = 1 \/ k = 2 \/ k = 3 \/ k = 4 \/ k = 5 \/ k = 6 \/ k = 7 \/ k = 8
          \/ k = 9 \/ k = 10) as Hcases by lia.
  repeat destruct Hcases as [-> | Hcases]; try reflexivity; subst; reflexivity.
Qed.

Lemma rateFilm_falsy_rating (w : Session.world) (username slug : string)
    (x : Session.star_input) (s : Session.session) :
  Session.truthy (Session.rating_map_get (Session.js_String x)) = false ->
  Session.rateFilm w username slug x s
    = (s, [], Session.Ok (Session.mkResult false
                 (Some (Session.ErrInvalidRating (Session.js_String x))))).
Proof. intros H. unfold Session.rateFilm. rewrite H. reflexivity. Qed.

(** C3 (failing input): [rateFilm(slug, 'constructor')], reached by
    [GET /rate/tt0816692/constructor]: [RATING_MAP['constructor']] is the
    inherited [Object] function, which is truthy, so the call does not
    fail with an invalid rating: it goes on to the browser session and
    POSTs that value as the rating.  The ten half-star values and [0]
    behave as specified. *)
Theorem rateFilm_inherited_key_reaches_network :
  let '(_, eff, res) := Session.rateFilm Scenarios.w_ok "snuffalobill" "interstellar"
                          (Session.StarStr "constructor") Scenarios.s_logged in
  In (Session.EPost Scenarios.rate_url (Some (Session.RInherited "constructor")) "csrf-token") eff
  /\ res = Session.Ok (Session.mkResult true None)
  /\ Session.rating_map_get (Session.js_String (Session.StarHalves 9)) = Session.RNum 9
  /\ Session.rating_map_get (Session.js_String (Session.StarStr "5")) = Session.RNum 10
  /\ Session.rateFilm Scenarios.w_ok "snuffalobill" "interstellar"
       (Session.StarHalves 0) Scenarios.s_logged
     = (Scenarios.s_logged, [],
        Session.Ok (Session.mkResult false (Some (Session.ErrInvalidRating "0")))).
Proof.
  vm_compute. split; [tauto|]. repeat split; reflexivity.
Qed.

(** ** Session invalidation on HTTP 403 *)

(** Closes [forall id, ~ In (ELaunch id) l] for an explicit list [l]. *)
Ltac not_in_list :=
  let id := fresh "id" in let H := fresh "H" in
  intros id H; repeat (destruct H as [H | H]; [discriminate H |]); exact H.

(** C4 (counterexample): after a 403 the login flag and token are cleared,
    but the browser is kept; the next [ensureBrowserLoggedIn] launches no
    browser: it only logs in again. *)
Lemma rate_403_then_relogin_without_relaunch :
  let '(s1, _, _) := Session.rateFilm Scenarios.w_403 "snuffalobill" "interstellar"
                       (Session.StarStr "4.5") Scenarios.s_logged in
  let '(s2, eff2, _) := Session.ensureBrowserLoggedIn Scenarios.w_ok s1 in
  Session.browserLoggedIn s1 = false /\ Session.sessionCsrf s1 = None
  /\ Session.browser s2 = Some Scenarios.b0
  /\ (forall id, ~ In (Session.ELaunch id) eff2).
Proof.
  vm_compute. repeat split; try reflexivity.
  not_in_list.
Qed.

Lemma ensure_connected_relogin (w : Session.world) (b : Session.browser_handle)
    (csrf : option string) (n : nat) :
  Session.connected b = true -> Session.w_creds w = true ->
  let '(s2, eff2, _) := Session.ensureBrowserLoggedIn w (Session.mkSession (Some b) false csrf n) in
  Session.browser s2 = Some b
  /\ (forall id, ~ In (Session.ELaunch id) eff2)
  /\ firstn 2 eff2 = [Session.ENewPage; Session.EGoto (Session.BASE_URL +:+ "/sign-in/")].
Proof.
  intros Hc Hcr. destruct b as [bid con]. simpl in Hc. subst con.
  unfold Session.ensureBrowserLoggedIn, Session.getBrowser.
  cbn. rewrite Hcr. cbn.
  unfold Session.try_finally, Session.login_transcript. cbn.
  destruct (Session.w_login w) as [| url csrf'].
  - cbn. repeat split. not_in_list.
  - cbn. destruct (Session.includes url "/sign-in/"); cbn; repeat split; not_in_list.
Qed.

(** C4: a logged-in session whose rating POST (for a non-empty scraped
    film id) is answered with HTTP 403 ends with the login flag false and the CSRF token cleared while the
    connected browser is kept; the next [ensureBrowserLoggedIn] (with
    credentials set) reuses that browser, launches none, and runs the
    sign-in transcript again. *)
Theorem rate_403_invalidates_login (w : Session.world) (username slug : string)
    (x : Session.star_input) (b : Session.browser_handle) (tok fid : string)
    (n : nat) (r : Session.response)
    (Hconn : Session.connected b = true) (Htok : tok <> "")
    (Hrating : Session.truthy (Session.rating_map_get (Session.js_String x)) = true)
    (Hfid : Session.w_film_id w = Some fid) (Hfid_ne : fid <> "")
    (Hpost : Session.w_post w = Some r)
    (H403 : Session.status r = 403) :
  let '(s1, _, res) := Session.rateFilm w username slug x
                         (Session.mkSession (Some b) true (Some tok) n) in
  s1 = Session.mkSession (Some b) false None n
  /\ res = Session.Ok (Session.mkResult false (Some (Session.ErrHttp 403)))
  /\ (forall w', Session.w_creds w' = true ->
      let '(s2, eff2, _) := Session.ensureBrowserLoggedIn w' s1 in
      Session.browser s2 = Some b
      /\ (forall id, ~ In (Session.ELaunch id) eff2)
      /\ firstn 2 eff2 = [Session.ENewPage; Session.EGoto (Session.BASE_URL +:+ "/sign-in/")]).
Proof.
  destruct b as [bid con]. simpl in Hconn. subst con.
  assert (Hs : Session.rateFilm w username slug x
                 (Session.mkSession (Some (Session.mkBrowser bid true)) true (Some tok) n)
               = (Session.mkSession (Some (Session.mkBrowser bid true)) false None n,
                  snd (fst (Session.rateFilm w username slug x
                    (Session.mkSession (Some (Session.mkBrowser bid true)) true (Some tok) n))),
                  Session.Ok (Session.mkResult false (Some (Session.ErrHttp 403))))).
  { unfold Session.rateFilm. rewrite Hrating. cbn.
    unfold Session.fetch_film_id. rewrite Hfid.
    unfold Session.try_catch, Session.bind, Session.ret, Session.emit, Session.get_s,
      Session.put_s, Session.throw, Session.try_finally, Session.set_logged_in,
      Session.set_csrf, Session.ensureBrowserLoggedIn, Session.getBrowser,
      Session.puppeteerPost, Session.drop_session_on_403, Session.csrf_truthy,
      Session.filmId_truthy. cbn.
    rewrite (proj2 (String.eqb_neq fid "") Hfid_ne). cbn.
    rewrite (proj2 (String.eqb_neq tok "") Htok). cbn.
    rewrite Hpost. cbn. rewrite H403. cbn. reflexivity. }
  rewrite Hs. split; [reflexivity|]. split; [reflexivity|].
  intros w' Hcr. exact (ensure_connected_relogin w' (Session.mkBrowser bid true) None n eq_refl Hcr).
Qed.

Lemma rate_403_invalidates_login_witness :
  Session.connected Scenarios.b0 = true /\ "csrf-token" <> ""
  /\ Session.truthy (Session.rating_map_get (Session.js_String (Session.StarStr "4.5"))) = true
  /\ Session.w_film_id Scenarios.w_403 = Some "51568" /\ "51568" <> ""
  /\ Session.w_post Scenarios.w_403 = Some (Session.mkResponse 403 false false)
  /\ Session.status (Session.mkResponse 403 false false) = 403
  /\ (let '(s1, _, _) := Session.rateFilm Scenarios.w_403 "snuffalobill" "interstellar"
                          (Session.StarStr "4.5")
                          (Session.mkSession (Some Scenarios.b0) true (Some "csrf-token") 1) in
      s1 = Session.mkSession (Some Scenarios.b0) false None 1).
Proof.
  split; [reflexivity|]. split; [discriminate|].
  split; [reflexivity|]. split; [reflexivity|]. split; [discriminate|].
  split; [reflexivity|]. split; [reflexivity|].
  pose proof (rate_403_invalidates_login Scenarios.w_403 "snuffalobill" "interstellar"
    (Session.StarStr "4.5") Scenarios.b0 "csrf-token" "51568" 1
    (Session.mkResponse 403 false false) eq_refl ltac:(discriminate) eq_refl eq_refl
    ltac:(discriminate) eq_refl eq_refl) as H.
  destruct (Session.rateFilm _ _ _ _ _) as [[s1 e1] r1]. exact (proj1 H).
Defined.

(** ** Exceptions inside the mutating actions *)

(** C7 (failing input): [addToWatchlist('interstellar')] on a logged-in
    session whose [page.goto] in [puppeteerPost] times out: the exception
    is caught and reported, but the browser handle, the login flag and the
    token are all kept, while [rateFilm] in the same situation resets all
    three. *)
Theorem addToWatchlist_exception_keeps_browser :
  let '(s1, _, res) := Session.addToWatchlist Scenarios.w_goto_fails "snuffalobill"
                         "interstellar" Scenarios.s_logged in
  res = Session.Ok (Session.mkResult false (Some (Session.ErrException "Navigation timeout")))
  /\ s1 = Scenarios.s_logged
  /\ Session.browser s1 = Some Scenarios.b0
  /\ Session.browserLoggedIn s1 = true
  /\ Session.sessionCsrf s1 = Some "csrf-token"
  /\ fst (fst (Session.rateFilm Scenarios.w_goto_fails "snuffalobill" "interstellar"
                 (Session.StarStr "4.5") Scenarios.s_logged))
     = Session.mkSession None false None 1.
Proof. vm_compute. repeat split; reflexivity. Qed.

(** ** Slug resolution *)

Lemma scan_no_fallback (rw : Resolver.rworld) (imdbId : string) (films : list string) :
  ~ In Resolver.RFallback (fst (Resolver.scan rw imdbId films)).
Proof.
  induction films as [| slug rest IH]; simpl; [tauto|].
  destruct (bool_decide _); simpl.
  - intros [H | H]; [discriminate | exact H].
  - destruct (Resolver.scan rw imdbId rest) as [e r] eqn:E. simpl in IH |- *.
    intros [H | H]; [discriminate | exact (IH H)].
Qed.

Lemma via_no_fallback (rw : Resolver.rworld) :
  ~ In Resolver.RFallback (fst (Resolver.resolveSlugFromImdbViaPuppeteer rw)).
Proof.
  unfold Resolver.resolveSlugFromImdbViaPuppeteer.
  destruct (Resolver.attempt_slug (Resolver.rw_redirect rw));
    [|destruct (Resolver.attempt_slug (Resolver.rw_og rw))]; simpl;
    intros H; repeat (destruct H as [H | H]; [discriminate H |]); exact H.
Qed.

Lemma via_never_throws (rw : Resolver.rworld) :
  exists o, snd (Resolver.resolveSlugFromImdbViaPuppeteer rw) = Session.Ok o.
Proof.
  unfold Resolver.resolveSlugFromImdbViaPuppeteer.
  destruct (Resolver.attempt_slug (Resolver.rw_redirect rw));
    [|destruct (Resolver.attempt_slug (Resolver.rw_og rw))]; simpl; eauto.
Qed.

(** C5: [resolveSlugFromImdb] never rejects, and tries its strategies in
    order: an identity-map hit returns at once with no other call; else
    the listing scan (one [getFilmMeta] per film visited) returns the
    first match without the fallback; else the fallback is called exactly
    once after the scan, its answer is returned, and when both of its
    attempts fail the result is [null]. *)
Theorem resolve_strategy_order (rw : Resolver.rworld) (m : gmap string string)
    (imdbId : string) :
  let '(_, tr, r) := Resolver.resolveSlugFromImdb rw m imdbId in
  (exists o, r = Session.Ok o)
  /\ match m !! imdbId with
     | Some slug => r = Session.Ok (Some slug) /\ tr = []
     | None =>
         let '(e_scan, hit) := Resolver.scan rw imdbId (Resolver.rw_listing rw) in
         match hit with
         | Some slug => r = Session.Ok (Some slug) /\ tr = Resolver.RListing :: e_scan
                        /\ ~ In Resolver.RFallback tr
         | None =>
             let '(e_fb, r_fb) := Resolver.resolveSlugFromImdbViaPuppeteer rw in
             tr = Resolver.RListing :: e_scan ++ Resolver.RFallback :: e_fb
             /\ ~ In Resolver.RFallback e_scan /\ ~ In Resolver.RFallback e_fb
             /\ r = r_fb
             /\ (Resolver.attempt_slug (Resolver.rw_redirect rw) = None ->
                 Resolver.attempt_slug (Resolver.rw_og rw) = None -> r = Session.Ok None)
         end
     end.
Proof.
  unfold Resolver.resolveSlugFromImdb.
  destruct (m !! imdbId) as [slug|] eqn:Hm; [split; eauto|].
  pose proof (scan_no_fallback rw imdbId (Resolver.rw_listing rw)) as Hsc.
  destruct (Resolver.scan rw imdbId (Resolver.rw_listing rw)) as [e_scan hit] eqn:Hs.
  simpl in Hsc.
  destruct hit as [slug|].
  - split; [eauto|]. split; [reflexivity|]. split; [reflexivity|].
    intros [H | H]; [discriminate | exact (Hsc H)].
  - pose proof (via_no_fallback rw) as Hfb. pose proof (via_never_throws rw) as [o Ho].
    assert (Hnull : Resolver.attempt_slug (Resolver.rw_redirect rw) = None ->
                    Resolver.attempt_slug (Resolver.rw_og rw) = None ->
                    snd (Resolver.resolveSlugFromImdbViaPuppeteer rw) = Session.Ok None).
    { intros H1 H2. unfold Resolver.resolveSlugFromImdbViaPuppeteer. rewrite H1, H2.
      reflexivity. }
    destruct (Resolver.resolveSlugFromImdbViaPuppeteer rw) as [e_fb r_fb] eqn:Hv.
    simpl in Hfb, Ho, Hnull. subst r_fb.
    destruct o as [slug|].
    + destruct (String.eqb slug ""); (split; [eauto|]); repeat split; auto;
        intros H1 H2; exact (Hnull H1 H2).
    + split; [eauto|]. repeat split; auto.
Qed.

(** C8 (counterexample): resolving ["tt0816692"] scans ["heat-1995"] first
    (its metadata is fetched) but the identity map gains no entry for
    heat-1995's id ["tt0113277"]; only the match is recorded. *)
Lemma scan_records_only_match :
  let '(m', tr, r) := Resolver.resolveSlugFromImdb Scenarios.rw_two_films ∅ "tt0816692" in
  In (Resolver.RMeta "heat-1995") tr
  /\ Scenarios.rw_two_films.(Resolver.rw_meta) "heat-1995" = Some "tt0113277"
  /\ m' !! "tt0113277" = None
  /\ m' !! "tt0816692" = Some "interstellar"
  /\ r = Session.Ok (Some "interstellar").
Proof. vm_compute. repeat split; auto. Qed.

(** C8: [resolveSlugFromImdb] changes the identity map at most at the
    queried id: every other key keeps its entry (or its absence), however
    many films the scan visits; a scan hit records [imdbId -> slug]. *)
Theorem resolve_identity_map_only_queried (rw : Resolver.rworld) (m : gmap string string)
    (imdbId : string) :
  (forall k, k <> imdbId ->
     fst (fst (Resolver.resolveSlugFromImdb rw m imdbId)) !! k = m !! k)
  /\ (forall slug, m !! imdbId = None ->
      snd (Resolver.scan rw imdbId (Resolver.rw_listing rw)) = Some slug ->
      fst (fst (Resolver.resolveSlugFromImdb rw m imdbId)) !! imdbId = Some slug).
Proof.
  unfold Resolver.resolveSlugFromImdb. split.
  - intros k Hk.
    destruct (m !! imdbId); [reflexivity|].
    destruct (Resolver.scan _ _ _) as [e_scan [slug|]].
    + simpl. rewrite lookup_insert_ne by congruence. reflexivity.
    + destruct (Resolver.resolveSlugFromImdbViaPuppeteer rw) as [e_fb [[slug|]|msg]];
        simpl; try reflexivity.
      destruct (String.eqb slug ""); simpl; [reflexivity|].
      rewrite lookup_insert_ne by congruence. reflexivity.
  - intros slug Hm Hhit. rewrite Hm.
    destruct (Resolver.scan _ _ _) as [e_scan hit]. simpl in Hhit. subst hit.
    simpl. apply lookup_insert_eq.
Qed.

(** ** The watchlist-remove route *)

(** C9 (counterexample): a request accepted by the session check and by
    deduplication whose slug does not resolve enqueues no job. *)
Lemma remove_route_unresolved_enqueues_nothing :
  fst (Server.deduplicateRating ∅ 1000 "tt0816692" "watchlist-remove") = true
  /\ snd (Routes.route_watchlist_remove true ∅ 1000 "tt0816692" (Session.Ok None)) = None.
Proof. split; reflexivity. Qed.

(** C9: letterboxd.js exports no [removeFromWatchlist], so the server's
    binding is [undefined]: an accepted remove request whose slug resolves
    enqueues a job that throws a [TypeError] at its call, reaches no
    letterboxd.js action (so issues no mutating request), and rejects; the
    queue treats the rejection like a success and starts the next job.
    Whatever the session, map, time and id, a request whose slug does not
    resolve (resolution to [null], to the empty string, or a rejection)
    enqueues nothing. *)
Theorem remove_job_throws (m m1 : gmap string Z) (now : Z) (imdbId slug : string)
    (Hslug : slug <> "")
    (Hdedup : Server.deduplicateRating m now imdbId "watchlist-remove" = (true, m1)) :
  Routes.route_watchlist_remove true m now imdbId (Session.Ok (Some slug))
    = (m1, Some (Routes.JobWatchRemove slug))
  /\ Routes.require_binding "removeFromWatchlist" = None
  /\ Routes.job_call (Routes.JobWatchRemove slug) = Routes.CallTypeError
  /\ Routes.job_reaches (Routes.JobWatchRemove slug) = []
  /\ Routes.job_rejects (Routes.JobWatchRemove slug) = true
  /\ (forall (q : list Routes.job) (k : Routes.job),
        Server.q_run (Server.mkQ (k :: q) true (Server.DAwaiting (Routes.JobWatchRemove slug)))
          [Server.OpSettle (Routes.job_rejects (Routes.JobWatchRemove slug)); Server.OpResume]
        = (Server.mkQ q true (Server.DAwaiting k),
           [Server.Finished (Routes.JobWatchRemove slug) true; Server.Started k]))
  /\ (forall (has : bool) (m' : gmap string Z) (now' : Z) (imdbId' : string)
        (resolved : Session.result (option string)),
        (forall slug', resolved = Session.Ok (Some slug') -> slug' = "") ->
        snd (Routes.route_watchlist_remove has m' now' imdbId' resolved) = None).
Proof.
  split.
  - unfold Routes.route_watchlist_remove. simpl. rewrite Hdedup. simpl.
    rewrite (proj2 (String.eqb_neq slug "") Hslug). reflexivity.
  - split; [reflexivity|]. split; [reflexivity|]. split; [reflexivity|].
    split; [reflexivity|]. split; [intros; reflexivity|].
    intros has m' now' imdbId' resolved Hres.
    unfold Routes.route_watchlist_remove.
    destruct has; simpl; [|reflexivity].
    destruct (Server.deduplicateRating m' now' imdbId' "watchlist-remove") as [ok m1'].
    destruct ok; simpl; [|reflexivity].
    destruct resolved as [[slug'|]|msg]; try reflexivity.
    rewrite (Hres slug' eq_refl). reflexivity.
Qed.

Lemma remove_job_throws_witness :
  "interstellar" <> ""
  /\ Server.deduplicateRating ∅ 1000 "tt0816692" "watchlist-remove"
     = (true, <["tt0816692:watchlist-remove" := 1000]> ∅)
  /\ Routes.route_watchlist_remove true ∅ 1000 "tt0816692" (Session.Ok (Some "interstellar"))
     = (<["tt0816692:watchlist-remove" := 1000]> ∅, Some (Routes.JobWatchRemove "interstellar")).
Proof.
  split; [discriminate|]. split; [reflexivity|].
  exact (proj1 (remove_job_throws ∅ _ 1000 "tt0816692" "interstellar"
                  ltac:(discriminate) eq_refl)).
Defined.

(** * Further properties of the modelled code *)

Section KeepsLemmas.
Import Session Effects.
Context (P : list effect -> Prop) (HP : monoid_inv P).

Lemma keeps_ret {A} (a : A) : keeps P (ret a).
Proof. intros s. apply HP. Qed.
Lemma keeps_throw {A} msg : keeps P (@throw A msg).
Proof. intros s. apply HP. Qed.
Lemma keeps_get : keeps P get_s.
Proof. intros s. apply HP. Qed.
Lemma keeps_put s' : keeps P (put_s s').
Proof. intros s. apply HP. Qed.
Lemma keeps_emit e : P [e] -> keeps P (emit e).
Proof. intros He s. exact He. Qed.
Lemma keeps_bind {A B} (m : M A) (k : A -> M B) :
  keeps P m -> (forall a, keeps P (k a)) -> keeps P (bind m k).
Proof.
  intros Hm Hk s. unfold bind. specialize (Hm s).
  destruct (m s) as [[s1 e1] [a|msg]] eqn:E; simpl in *; [|exact Hm].
  specialize (Hk a s1). destruct (k a s1) as [[s2 e2] r]. simpl in *.
  apply HP; assumption.
Qed.
Lemma keeps_try_catch {A} (m : M A) h :
  keeps P m -> (forall msg, keeps P (h msg)) -> keeps P (try_catch m h).
Proof.
  intros Hm Hh s. unfold try_catch. specialize (Hm s).
  destruct (m s) as [[s1 e1] [a|msg]] eqn:E; simpl in *; [exact Hm|].
  specialize (Hh msg s1). destruct (h msg s1) as [[s2 e2] r]. simpl in *.
  apply HP; assumption.
Qed.
Lemma keeps_try_finally {A} (m : M A) fin :
  keeps P m -> keeps P fin -> keeps P (try_finally m fin).
Proof.
  intros Hm Hf s. unfold try_finally. specialize (Hm s).
  destruct (m s) as [[s1 e1] r] eqn:E; simpl in *.
  specialize (Hf s1). destruct (fin s1) as [[s2 e2] r2]. simpl in *.
  apply HP; assumption.
Qed.
End KeepsLemmas.

Section Balance.
Import Session Effects.

Lemma open_pages_app a b : open_pages (a ++ b) = open_pages a + open_pages b.
Proof. induction a as [|e a IH]; simpl; [reflexivity|]. rewrite IH. lia. Qed.

Lemma balanced_inv : monoid_inv (fun l => open_pages l = 0).
Proof. split; [reflexivity|]. intros a b Ha Hb. rewrite open_pages_app. lia. Qed.

Lemma tokens_inv : monoid_inv (Forall post_has_token).
Proof. split; [constructor|]. intros a b Ha Hb. apply Forall_app_2; assumption. Qed.

(** A page opened, a body run, the page closed whatever the body did. *)
Lemma keeps_scoped {A} (body : M A) :
  keeps (fun l => open_pages l = 0) body ->
  keeps (fun l => open_pages l = 0) (emit ENewPage ;;; try_finally body (emit EClosePage)).
Proof.
  intros Hb s. unfold bind, emit, try_finally. specialize (Hb s).
  destruct (body s) as [[s1 e1] r]. simpl in *.
  rewrite open_pages_app. simpl in *. lia.
Qed.

Lemma keeps_scoped_then {A B} (body : M A) (k : A -> M B) :
  keeps (fun l => open_pages l = 0) body ->
  (forall a, keeps (fun l => open_pages l = 0) (k a)) ->
  keeps (fun l => open_pages l = 0)
    (emit ENewPage ;;; bind (try_finally body (emit EClosePage)) k).
Proof.
  intros Hb Hk s. unfold bind at 1, emit. simpl.
  unfold bind, try_finally. specialize (Hb s).
  destruct (body s) as [[s1 e1] [a|msg]]; simpl in *.
  - specialize (Hk a s1). destruct (k a s1) as [[s2 e2] r]. simpl in *.
    rewrite !open_pages_app. simpl. lia.
  - rewrite open_pages_app. simpl. lia.
Qed.
End Balance.

Ltac emit_side :=
  first [ reflexivity
        | constructor; [simpl; first [exact I | assumption] | constructor] ].

Ltac keeps_step HP :=
  match goal with
  | |- Effects.keeps _ (Session.ret _) => apply (keeps_ret _ HP)
  | |- Effects.keeps _ (Session.throw _) => apply (keeps_throw _ HP)
  | |- Effects.keeps _ Session.get_s => apply (keeps_get _ HP)
  | |- Effects.keeps _ (Session.put_s _) => apply (keeps_put _ HP)
  | |- Effects.keeps _ (Session.emit _) => apply (keeps_emit _); emit_side
  | |- Effects.keeps _ (Session.bind _ _) => apply (keeps_bind _ HP); [|intros ?; cbv beta]
  | |- Effects.keeps _ (Session.try_catch _ _) => apply (keeps_try_catch _ HP); [|intros ?; cbv beta]
  | |- Effects.keeps _ (Session.try_finally _ _) => apply (keeps_try_finally _ HP)
  | |- Effects.keeps _ (if ?b then _ else _) => destruct b eqn:?
  | |- Effects.keeps _ (let _ := _ in _) => cbv zeta
  | |- _ => case_match
  end.

Ltac bal_step :=
  first [ apply keeps_scoped_then; [|intros ?; cbv beta]
        | apply keeps_scoped
        | keeps_step balanced_inv ].

Section Sess.
Import Session Effects.
Variable w : world.

Lemma getBrowser_balanced : keeps (fun l => open_pages l = 0) (getBrowser w).
Proof. unfold getBrowser. repeat bal_step. Qed.
Lemma login_balanced : keeps (fun l => open_pages l = 0) (login_transcript w).
Proof. unfold login_transcript, set_csrf, set_logged_in. repeat bal_step. Qed.
Lemma ensure_balanced : keeps (fun l => open_pages l = 0) (ensureBrowserLoggedIn w).
Proof. unfold ensureBrowserLoggedIn. repeat first [apply getBrowser_balanced | apply login_balanced | bal_step]. Qed.
Lemma post_balanced url r : keeps (fun l => open_pages l = 0) (puppeteerPost w url r).
Proof. unfold puppeteerPost. repeat first [apply ensure_balanced | bal_step]. Qed.
Lemma rateFilm_balanced u slug x : keeps (fun l => open_pages l = 0) (rateFilm w u slug x).
Proof. unfold rateFilm, fetch_film_id, drop_session_on_403, set_browser, set_logged_in, set_csrf.
  repeat first [apply ensure_balanced | apply post_balanced | bal_step]. Qed.
End Sess.

Lemma csrf_truthy_nonempty c t : Session.csrf_truthy c = Some t -> t <> EmptyString.
Proof. destruct c as [c|]; simpl; [|discriminate]. destruct (String.eqb_spec c ""); [discriminate|]. intros H; injection H; intros <-; exact n. Qed.

Ltac tok_step :=
  first [ match goal with H : Session.csrf_truthy _ = Some _ |- _ => apply csrf_truthy_nonempty in H end
        | keeps_step tokens_inv ].

Ltac fd := repeat progress (rewrite ?List.filter_app; simpl);
  repeat match goal with H : List.filter _ _ = [] |- _ => rewrite H end; reflexivity.

Section Tok.
Import Session Effects.
Variable w : world.
Lemma ensure_tokens : keeps (Forall post_has_token) (ensureBrowserLoggedIn w).
Proof. unfold ensureBrowserLoggedIn, getBrowser, login_transcript, set_csrf, set_logged_in. repeat tok_step. Qed.
Lemma post_tokens url r : keeps (Forall post_has_token) (puppeteerPost w url r).
Proof. unfold puppeteerPost. repeat first [apply ensure_tokens | tok_step]. Qed.
Lemma rateFilm_tokens u slug x : keeps (Forall post_has_token) (rateFilm w u slug x).
Proof. unfold rateFilm, fetch_film_id, drop_session_on_403, set_browser, set_logged_in, set_csrf.
  repeat first [apply ensure_tokens | apply post_tokens | tok_step]. Qed.
Lemma add_tokens u slug : keeps (Forall post_has_token) (addToWatchlist w u slug).
Proof. unfold addToWatchlist, fetch_film_id, drop_session_on_403, set_browser, set_logged_in, set_csrf.
  repeat first [apply ensure_tokens | apply post_tokens | tok_step]. Qed.
Lemma add_balanced u slug : keeps (fun l => open_pages l = 0) (addToWatchlist w u slug).
Proof. unfold addToWatchlist, fetch_film_id, drop_session_on_403, set_browser, set_logged_in, set_csrf.
  repeat first [apply ensure_balanced | apply post_balanced | bal_step]. Qed.

Lemma nodelete_inv : monoid_inv (fun l => List.filter is_cache_delete l = []).
Proof. split; [reflexivity|]. intros a b Ha Hb. rewrite List.filter_app, Ha, Hb. reflexivity. Qed.

Ltac nd_step := keeps_step nodelete_inv.

Lemma ensure_nodelete : keeps (fun l => List.filter is_cache_delete l = []) (ensureBrowserLoggedIn w).
Proof. unfold ensureBrowserLoggedIn, getBrowser, login_transcript, set_csrf, set_logged_in. repeat nd_step. Qed.
Lemma post_nodelete url r : keeps (fun l => List.filter is_cache_delete l = []) (puppeteerPost w url r).
Proof. unfold puppeteerPost. repeat first [apply ensure_nodelete | nd_step]. Qed.


End Tok.

Section Tok2.
Import Session Effects.
Variable w : world.

(** addToWatchlist deletes a cache entry only when it reports success, and then exactly watchlist:{user}. *)
Theorem addToWatchlist_deletes_only_on_success u slug s :
  let '(_, eff, r) := addToWatchlist w u slug s in
  List.filter is_cache_delete eff =
    match r with
    | Ok (mkResult true _) => [ECacheDelete ("watchlist:" +:+ u)]
    | _ => []
    end.
Proof.
  unfold addToWatchlist.
  unfold try_catch, bind at 1. pose proof (ensure_nodelete w s) as H1.
  destruct (ensureBrowserLoggedIn w s) as [[s1 e1] [b|msg]]; simpl in H1.
  2:{ unfold ret. fd. }
  unfold fetch_film_id, bind at 1, emit, ret. simpl.
  destruct (filmId_truthy (w_film_id w)) as [fid|]; simpl.
  2:{ fd. }
  unfold bind at 1. pose proof (post_nodelete w (BASE_URL +:+ "/s/film:" +:+ fid +:+ "/watchlist/")
     None s1) as H2.
  destruct (puppeteerPost _ _ _ s1) as [[s2 e2] [r|msg]]; simpl in H2.
  2:{ unfold ret. fd. }
  destruct (status r =? 200).
  - destruct (result_true r || watchlisted_true r); unfold bind, emit, ret; simpl; fd.
  - unfold drop_session_on_403, set_logged_in, set_csrf, bind, get_s, put_s, ret.
    destruct (status r =? 403); simpl; fd.
Qed.

(** ensureBrowserLoggedIn with a connected browser and no login: without credentials it throws before opening a page; a sign-in that throws or lands on the sign-in page throws, closes its page and leaves the session as it was; otherwise it stores the token read (possibly none) and marks the session logged in. *)
Theorem ensure_login_outcomes lo f p i tok n :
  let b := mkBrowser i true in
  let s := mkSession (Some b) false tok n in
  (exists msg, ensureBrowserLoggedIn (mkWorld lo false LoginThrows f p) s = (s, [], Throw msg)) /\
  ensureBrowserLoggedIn (mkWorld lo true LoginThrows f p) s
    = (s, [ENewPage; signin; EClosePage], Throw "sign-in page timeout") /\
  (forall url c, includes url "/sign-in/" = true ->
     exists msg, ensureBrowserLoggedIn (mkWorld lo true (LoginLands url c) f p) s
       = (s, [ENewPage; signin; ELoginSubmit; EClosePage], Throw msg)) /\
  (forall url c, includes url "/sign-in/" = false ->
     ensureBrowserLoggedIn (mkWorld lo true (LoginLands url c) f p) s
       = (mkSession (Some b) true c n, [ENewPage; signin; ELoginSubmit; EClosePage], Ok b)).
Proof.
  cbv zeta. unfold ensureBrowserLoggedIn, getBrowser, login_transcript, set_csrf, set_logged_in,
    try_finally, bind, emit, get_s, put_s, ret, throw. simpl.
  split; [eexists; reflexivity|]. split; [reflexivity|].
  split; intros url c Hu; rewrite Hu; simpl; [eexists|]; reflexivity.
Qed.

Lemma ensure_relaunch_core ob li tok n f p url c :
  (ob = None \/ exists i, ob = Some (mkBrowser i false)) ->
  includes url "/sign-in/" = false ->
  ensureBrowserLoggedIn (mkWorld true true (LoginLands url c) f p) (mkSession ob li tok n)
    = (mkSession (Some (mkBrowser n true)) true c (S n),
       [ELaunch n; ENewPage; signin; ELoginSubmit; EClosePage], Ok (mkBrowser n true)).
Proof.
  intros Hob Hu.
  destruct Hob as [->|[i ->]];
  unfold ensureBrowserLoggedIn, getBrowser, login_transcript, set_csrf, set_logged_in,
    try_finally, bind, emit, get_s, put_s, ret, throw; simpl; rewrite Hu; reflexivity.
Qed.

(** A missing or disconnected browser is relaunched under a fresh id and the sign-in is run again, even when browserLoggedIn was still true. *)
Theorem ensure_relaunches_dead_browser ob li tok n f p url c :
  (ob = None \/ exists i, ob = Some (mkBrowser i false)) ->
  includes url "/sign-in/" = false ->
  ensureBrowserLoggedIn (mkWorld true true (LoginLands url c) f p) (mkSession ob li tok n)
    = (mkSession (Some (mkBrowser n true)) true c (S n),
       [ELaunch n; ENewPage; signin; ELoginSubmit; EClosePage], Ok (mkBrowser n true)).
Proof. apply ensure_relaunch_core. Qed.

Lemma rateFilm_exception_clears u slug x s s' e msg :
  rateFilm w u slug x s = (s', e, Ok (mkResult false (Some (ErrException msg)))) ->
  browser s' = None /\ browserLoggedIn s' = false /\ sessionCsrf s' = None.
Proof.
  unfold rateFilm. destruct (negb _); [unfold ret; intros H; injection H; discriminate|].
  unfold try_catch, bind at 1.
  destruct (ensureBrowserLoggedIn w s) as [[s1 e1] [b|msg1]].
  2:{ unfold set_browser, set_logged_in, set_csrf, bind, get_s, put_s, ret. simpl.
      intros H; injection H; intros; subst; simpl; auto. }
  unfold bind at 1, emit. simpl. unfold fetch_film_id, bind at 1, emit, ret. simpl.
  destruct (filmId_truthy (w_film_id w)) as [fid|]; simpl.
  2:{ intros H; injection H; discriminate. }
  unfold bind at 1.
  destruct (puppeteerPost _ _ _ s1) as [[s2 e2] [r|msg2]].
  2:{ unfold set_browser, set_logged_in, set_csrf, bind, get_s, put_s, ret. simpl.
      intros H; injection H; intros; subst; simpl; auto. }
  destruct (status r =? 200).
  - destruct (result_true r); unfold bind, emit, ret; simpl; intros H; injection H; discriminate.
  - unfold drop_session_on_403, set_logged_in, set_csrf, bind, get_s, put_s, ret.
    destruct (status r =? 403); simpl; intros H; injection H; discriminate.
Qed.
End Tok2.

Section NoFilmId.
Import Session Effects.
Variable w : world.

Lemma nopost_inv : monoid_inv (fun l => List.filter is_post l = []).
Proof. split; [reflexivity|]. intros a b Ha Hb. rewrite List.filter_app, Ha, Hb. reflexivity. Qed.

Lemma ensure_nopost : keeps (fun l => List.filter is_post l = []) (ensureBrowserLoggedIn w).
Proof.
  unfold ensureBrowserLoggedIn, getBrowser, login_transcript, set_csrf, set_logged_in.
  repeat keeps_step nopost_inv.
Qed.

(** When the scraped film id is missing or empty ([!filmId]), rateFilm and addToWatchlist send no POST, from any session, and both report failure (an invalid rating, a caught exception, or the missing film id). *)
Theorem actions_skip_empty_film_id u slug x s :
  filmId_truthy (w_film_id w) = None ->
  List.filter is_post (snd (fst (rateFilm w u slug x s))) = [] /\
  List.filter is_post (snd (fst (addToWatchlist w u slug s))) = [] /\
  (exists e, snd (rateFilm w u slug x s) = Ok (mkResult false e)) /\
  (exists e, snd (addToWatchlist w u slug s) = Ok (mkResult false e)).
Proof.
  intros Hfid. pose proof (ensure_nopost s) as H1.
  assert (Hr : List.filter is_post (snd (fst (rateFilm w u slug x s))) = [] /\
               exists e, snd (rateFilm w u slug x s) = Ok (mkResult false e)).
  { unfold rateFilm. destruct (negb _); [split; [reflexivity | eexists; reflexivity]|].
    unfold try_catch, bind.
    destruct (ensureBrowserLoggedIn w s) as [[s1 e1] [b|msg]]; simpl in H1.
    - unfold fetch_film_id, bind, emit, ret. simpl. rewrite Hfid. simpl.
      split; [fd | eexists; reflexivity].
    - unfold set_browser, set_logged_in, set_csrf, bind, get_s, put_s, ret. simpl.
      split; [fd | eexists; reflexivity]. }
  assert (Ha : List.filter is_post (snd (fst (addToWatchlist w u slug s))) = [] /\
               exists e, snd (addToWatchlist w u slug s) = Ok (mkResult false e)).
  { unfold addToWatchlist, try_catch, bind.
    destruct (ensureBrowserLoggedIn w s) as [[s1 e1] [b|msg]]; simpl in H1.
    - unfold fetch_film_id, bind, emit, ret. simpl. rewrite Hfid. simpl.
      split; [fd | eexists; reflexivity].
    - unfold ret. simpl. split; [fd | eexists; reflexivity]. }
  destruct Hr as [Hr1 Hr2]. destruct Ha as [Ha1 Ha2]. auto.
Qed.

End NoFilmId.

Section NoFilmIdWitness.
Import Session Effects.
Lemma actions_skip_empty_film_id_witness :
  filmId_truthy (w_film_id (mkWorld true true (LoginLands "https://letterboxd.com/" None)
                              (Some "") (Some (mkResponse 403 false false)))) = None /\
  List.filter is_post (snd (fst (addToWatchlist
    (mkWorld true true (LoginLands "https://letterboxd.com/" None) (Some "")
       (Some (mkResponse 403 false false))) "me" "heat-1995" Scenarios.s_logged))) = [].
Proof.
  split; [reflexivity|].
  exact (proj1 (proj2 (actions_skip_empty_film_id
    (mkWorld true true (LoginLands "https://letterboxd.com/" None) (Some "")
       (Some (mkResponse 403 false false))) "me" "heat-1995" (StarStr "4") Scenarios.s_logged
    eq_refl))).
Defined.
End NoFilmIdWitness.

Section Compose.
Import Session Effects.
(** After rateFilm reports an exception, the next ensureBrowserLoggedIn launches a new browser and signs in again. *)
Theorem rateFilm_exception_then_relaunch w u slug x s s' e msg f p url c :
  rateFilm w u slug x s = (s', e, Ok (mkResult false (Some (ErrException msg)))) ->
  includes url "/sign-in/" = false ->
  ensureBrowserLoggedIn (mkWorld true true (LoginLands url c) f p) s'
    = (mkSession (Some (mkBrowser (next_bid s') true)) true c (S (next_bid s')),
       [ELaunch (next_bid s'); ENewPage; signin; ELoginSubmit; EClosePage],
       Ok (mkBrowser (next_bid s') true)).
Proof.
  intros H Hu. destruct (rateFilm_exception_clears w u slug x s s' e msg H) as (Hb & Hl & Hc).
  destruct s' as [ob li tok n]; simpl in *. subst.
  apply ensure_relaunch_core; auto.
Qed.

Lemma rateFilm_exception_then_relaunch_witness :
  ensureBrowserLoggedIn (mkWorld true true (LoginLands "https://letterboxd.com/" (Some "t2")) None None)
    (fst (fst (rateFilm Scenarios.w_goto_fails "me" "heat-1995" (StarStr "4") Scenarios.s_logged)))
  = (mkSession (Some (mkBrowser 1 true)) true (Some "t2") 2,
     [ELaunch 1; ENewPage; signin; ELoginSubmit; EClosePage], Ok (mkBrowser 1 true)).
Proof.
  refine (rateFilm_exception_then_relaunch Scenarios.w_goto_fails "me" "heat-1995" (StarStr "4")
            Scenarios.s_logged _ _ "Navigation timeout" None None _ _ _ _).
  - vm_compute. reflexivity.
  - vm_compute. reflexivity.
Defined.
End Compose.

Section More.
Import Session Effects.

(** ensureBrowserLoggedIn, rateFilm and addToWatchlist close every page they open, on every path (success, error, exception): pages opened minus pages closed is zero, for every world and session. *)
Theorem actions_close_every_page w u slug x s :
  open_pages (snd (fst (ensureBrowserLoggedIn w s))) = 0 /\
  open_pages (snd (fst (rateFilm w u slug x s))) = 0 /\
  open_pages (snd (fst (addToWatchlist w u slug s))) = 0.
Proof.
  split; [apply ensure_balanced|]. split; [apply rateFilm_balanced|apply add_balanced].
Qed.

(** rateFilm and addToWatchlist never send a POST without a non-empty CSRF token. *)
Theorem actions_post_with_token w u slug x s :
  Forall post_has_token (snd (fst (rateFilm w u slug x s))) /\
  Forall post_has_token (snd (fst (addToWatchlist w u slug s))).
Proof. split; [apply rateFilm_tokens|apply add_tokens]. Qed.

(** For a non-empty scraped film id, an HTTP 403 answer to addToWatchlist's POST clears the login flag and the CSRF token, keeps the browser, and reports the status. *)
Theorem addToWatchlist_403_drops_login i tok n lo cr lg fid r u slug :
  fid <> EmptyString -> tok <> EmptyString -> status r = 403 ->
  addToWatchlist (mkWorld lo cr lg (Some fid) (Some r)) u slug
    (mkSession (Some (mkBrowser i true)) true (Some tok) n)
  = (mkSession (Some (mkBrowser i true)) false None n,
     [EAxiosGet (BASE_URL +:+ "/film/" +:+ slug +:+ "/"); ENewPage; EGoto (BASE_URL +:+ "/");
      EPost (BASE_URL +:+ "/s/film:" +:+ fid +:+ "/watchlist/") None tok; EClosePage],
     Ok (mkResult false (Some (ErrHttp 403)))).
Proof.
  intros Hfid Htok Hst.
  unfold addToWatchlist, puppeteerPost, ensureBrowserLoggedIn, getBrowser, fetch_film_id,
    filmId_truthy, drop_session_on_403, csrf_truthy, set_logged_in, set_csrf,
    try_catch, try_finally, bind, emit, get_s, put_s, ret, throw. simpl.
  destruct (String.eqb_spec fid ""); [contradiction|]. simpl.
  destruct (String.eqb_spec tok ""); [contradiction|]. simpl.
  rewrite Hst. reflexivity.
Qed.

Lemma addToWatchlist_403_drops_login_witness :
  addToWatchlist (mkWorld true true (LoginLands "https://letterboxd.com/" None) (Some "51568")
                    (Some (mkResponse 403 false false))) "me" "heat-1995"
    (mkSession (Some (mkBrowser 0 true)) true (Some "csrf-token") 1)
  = (mkSession (Some (mkBrowser 0 true)) false None 1,
     [EAxiosGet (BASE_URL +:+ "/film/" +:+ "heat-1995" +:+ "/"); ENewPage; EGoto (BASE_URL +:+ "/");
      EPost (BASE_URL +:+ "/s/film:" +:+ "51568" +:+ "/watchlist/") None "csrf-token"; EClosePage],
     Ok (mkResult false (Some (ErrHttp 403)))).
Proof. apply addToWatchlist_403_drops_login; [discriminate | discriminate | reflexivity]. Defined.

Lemma ensure_relaunches_dead_browser_witness :
  ensureBrowserLoggedIn (mkWorld true true (LoginLands "https://letterboxd.com/" (Some "t")) None None)
    (mkSession (Some (mkBrowser 0 false)) true (Some "old") 1)
  = (mkSession (Some (mkBrowser 1 true)) true (Some "t") 2,
     [ELaunch 1; ENewPage; signin; ELoginSubmit; EClosePage], Ok (mkBrowser 1 true)).
Proof.
  apply ensure_relaunches_dead_browser; [right; exists 0%nat; reflexivity | reflexivity].
Defined.
End More.

Section RM.
Import Session.
(** Every own key of RATING_MAP is the printed value n/2 of the number n it maps to, with n between 1 and 10. *)
Theorem rating_map_own_keys s n :
  rating_map_get s = RNum n -> 1 <= n <= 10 /\ s = halves_to_string n.
Proof.
  unfold rating_map_get.
  destruct (assoc s RATING_MAP) as [v|] eqn:E.
  2:{ destruct (existsb _ _); discriminate. }
  intros H; injection H; intros <-. simpl in E.
  repeat match type of E with
  | context [String.eqb s ?k] => destruct (String.eqb_spec s k) as [->|_];
      [injection E; intros <-; split; [lia | reflexivity] |]
  end. discriminate.
Qed.

(** Each stars value of STAR_OPTIONS is an own key of RATING_MAP (so rateFilm accepts it), and the ten buttons give ten different ratings. *)
Theorem star_options_accepted :
  Forall (fun o => exists n, rating_map_get o = RNum n /\ 1 <= n <= 10 /\ o = halves_to_string n)
    Handlers.STAR_OPTIONS /\
  List.NoDup (map rating_map_get Handlers.STAR_OPTIONS).
Proof.
  split.
  - unfold Handlers.STAR_OPTIONS.
    repeat (constructor; [eexists; split; [reflexivity|]; split; [lia|reflexivity]|]).
    constructor.
  - cbn. repeat (constructor; [simpl; intros H; repeat (destruct H as [H|H]; [discriminate H|]); exact H|]).

    constructor.
Qed.
End RM.

Section Slugs.
Import Resolver SlugText.

Lemma segment_no_slash t x : segment t = Some x -> no_slash x.
Proof.
  revert x. induction t as [|c r IH]; simpl; intros x H; [discriminate|].
  destruct (Ascii.eqb_spec c "/").
  - injection H; intros <-. constructor.
  - destruct (segment r) as [y|] eqn:E; simpl in H; [|discriminate].
    injection H; intros <-. constructor; [exact n|]. apply IH; reflexivity.
Qed.

Lemma segment_app_slash x rest : no_slash x -> segment (x +:+ String "/" rest) = Some x.
Proof.
  induction x as [|c r IH]; simpl; intros H.
  - reflexivity.
  - inversion H as [|? ? Hc Hr]; subst.
    destruct (Ascii.eqb_spec c "/"); [contradiction|]. rewrite (IH Hr). reflexivity.
Qed.

Lemma starts_with_app p t : UserRating.starts_with p (p +:+ t) = true.
Proof. induction p as [|c p IH]; simpl; [reflexivity|]. rewrite Ascii.eqb_refl, IH. reflexivity. Qed.

Lemma substring_full t m : (String.length t <= m)%nat -> substring 0 m t = t.
Proof.
  revert m. induction t as [|c t IH]; intros m Hm; simpl.
  - destruct m; reflexivity.
  - destruct m as [|m]; simpl in Hm; [lia|]. rewrite IH by lia. reflexivity.
Qed.

Lemma substring_app_prefix p t :
  substring (String.length p) (String.length (p +:+ t)) (p +:+ t) = t.
Proof.
  assert (Hl : forall m, (String.length t <= m)%nat ->
            substring (String.length p) m (p +:+ t) = t).
  { induction p as [|c p IH]; intros m Hm; simpl.
    - apply substring_full; exact Hm.
    - apply IH; exact Hm. }
  apply Hl. clear Hl.
  assert (E : String.length (p +:+ t) = (String.length p + String.length t)%nat).
  { induction p as [|c p IH]; [reflexivity|]. simpl. rewrite IH. reflexivity. }
  rewrite E. lia.
Qed.

Lemma film_slug_of_eq s :
  film_slug_of s =
  match (if UserRating.starts_with film_prefix s
         then match segment (substring (String.length film_prefix) (String.length s) s) with
              | Some (String c r) => Some (String c r)
              | _ => None
              end
         else None) with
  | Some slug => Some slug
  | None => match s with EmptyString => None | String _ r => film_slug_of r end
  end.
Proof. destruct s; reflexivity. Qed.

Lemma film_slug_of_result_core s slug :
  film_slug_of s = Some slug -> slug <> EmptyString /\ no_slash slug.
Proof.
  induction s as [|c r IH]; intros H; rewrite film_slug_of_eq in H.
  - simpl in H. discriminate.
  - destruct (UserRating.starts_with film_prefix (String c r)); [|apply IH; exact H].
    destruct (segment _) as [[|c' r']|] eqn:Es; try (apply IH; exact H).
    injection H; intros <-. split; [discriminate|]. eapply segment_no_slash; exact Es.
Qed.
Lemma film_slug_of_skip c r :
  UserRating.starts_with film_prefix (String c r) = false ->
  film_slug_of (String c r) = film_slug_of r.
Proof. intros H. rewrite film_slug_of_eq, H. reflexivity. Qed.

Lemma film_slug_of_at_prefix x rest :
  x <> EmptyString -> no_slash x ->
  film_slug_of (film_prefix +:+ (x +:+ String "/" rest)) = Some x.
Proof.
  intros Hx Hs. rewrite film_slug_of_eq, starts_with_app, substring_app_prefix,
    segment_app_slash by exact Hs.
  destruct x; [contradiction|]. reflexivity.
Qed.

Lemma film_slug_of_https x :
  film_slug_of ("https://" +:+ x) = film_slug_of x.
Proof. change ("https://" +:+ x) with (String "h" (String "t" (String "t" (String "p" (String "s" (String ":" (String "/" (String "/" x)))))))).
  do 8 (rewrite film_slug_of_skip by reflexivity). reflexivity. Qed.

(** For a non-empty slug without a slash, the slug pattern recovers the slug from the film URL built by the code; the unredirected /film/imdb/{id}/ URL yields the slug imdb, which the fallback rejects. *)
Theorem film_url_round_trip slug imdbId :
  slug <> EmptyString -> no_slash slug ->
  film_slug_of (UserRating.film_url slug) = Some slug /\
  (slug <> "imdb" -> attempt_slug (AUrl (UserRating.film_url slug)) = Some slug) /\
  attempt_slug (AUrl (UserRating.film_url ("imdb/" +:+ imdbId))) = None.
Proof.
  intros Hne Hs.
  assert (E : forall x, UserRating.film_url x = "https://" +:+ (film_prefix +:+ (x +:+ "/")))
    by reflexivity.
  assert (R : film_slug_of (UserRating.film_url slug) = Some slug).
  { rewrite E, film_slug_of_https. apply film_slug_of_at_prefix; assumption. }
  split; [exact R|]. split.
  - intros Hi. unfold attempt_slug. rewrite R. destruct (String.eqb_spec slug "imdb"); [contradiction|reflexivity].
  - unfold attempt_slug. rewrite E, film_slug_of_https.
    change (("imdb/" +:+ imdbId) +:+ "/") with ("imdb" +:+ String "/" (imdbId +:+ "/")).
    rewrite film_slug_of_at_prefix; [reflexivity | discriminate |].
    repeat constructor; discriminate.
Qed.
End Slugs.

Section Memo.
Import Resolver.

Lemma attempt_slug_nonempty a slug : attempt_slug a = Some slug -> slug <> EmptyString.
Proof.
  destruct a as [msg|u]; simpl; [discriminate|].
  destruct (film_slug_of u) as [x|] eqn:E; [|discriminate].
  destruct (String.eqb x "imdb"); [discriminate|]. intros H; injection H; intros <-.
  apply (film_slug_of_result_core u x E).
Qed.

Lemma via_nonempty rw e slug :
  resolveSlugFromImdbViaPuppeteer rw = (e, Session.Ok (Some slug)) -> slug <> EmptyString.
Proof.
  unfold resolveSlugFromImdbViaPuppeteer.
  destruct (attempt_slug (rw_redirect rw)) as [x|] eqn:E1.
  - intros H; injection H; intros <- _. eapply attempt_slug_nonempty; exact E1.
  - destruct (attempt_slug (rw_og rw)) as [x|] eqn:E2; intros H; injection H; intros.
    + subst. eapply attempt_slug_nonempty; exact E2.
    + discriminate.
Qed.

(** Once resolveSlugFromImdb has resolved an IMDb id, later calls return the same slug from the map with no further work. *)
Theorem resolve_memoises rw rw' m imdbId m' e slug :
  resolveSlugFromImdb rw m imdbId = (m', e, Session.Ok (Some slug)) ->
  resolveSlugFromImdb rw' m' imdbId = (m', [], Session.Ok (Some slug)).
Proof.
  unfold resolveSlugFromImdb at 1.
  destruct (m !! imdbId) as [x|] eqn:Em.
  - intros H; injection H; intros <- _ <-. unfold resolveSlugFromImdb. rewrite Em. reflexivity.
  - destruct (scan rw imdbId (rw_listing rw)) as [es [x|]].
    + intros H; injection H; intros <- _ <-. unfold resolveSlugFromImdb.
      rewrite lookup_insert_eq. reflexivity.
    + destruct (resolveSlugFromImdbViaPuppeteer rw) as [efb r] eqn:Ev.
      destruct r as [[x|]|msg]; [|intros H; injection H; discriminate
                                  |intros H; injection H; discriminate].
      pose proof (via_nonempty _ _ _ Ev) as Hx.
      destruct (String.eqb_spec x ""); [contradiction|].
      intros H; injection H; intros <- _ <-.
      unfold resolveSlugFromImdb. rewrite lookup_insert_eq. reflexivity.
Qed.
End Memo.

Section Dedup.
Import Server.

Lemma dedup_key_inj imdbId a b : dedup_key imdbId a = dedup_key imdbId b -> a = b.
Proof.
  unfold dedup_key. induction imdbId as [|c r IH]; simpl; intros H.
  - injection H; auto.
  - injection H; exact IH.
Qed.

Lemma dedup_frame_core m now imdbId action :
  let '(ok, m1) := deduplicateRating m now imdbId action in
  (forall k, k <> dedup_key imdbId action -> m1 !! k = m !! k) /\
  (ok = false -> m1 = m) /\
  (ok = true -> m1 !! dedup_key imdbId action = Some now).
Proof.
  unfold deduplicateRating.
  destruct (m !! dedup_key imdbId action) as [last|].
  - destruct (negb (last =? 0) && (now - last <? 5000)).
    + split; [auto|]. split; [auto | discriminate].
    + split; [intros k Hk; apply lookup_insert_ne; congruence|].
      split; [discriminate | intros _; apply lookup_insert_eq].
  - split; [intros k Hk; apply lookup_insert_ne; congruence|].
    split; [discriminate | intros _; apply lookup_insert_eq].
Qed.

(** Requests with different actions for the same IMDb id do not deduplicate each other. *)
Theorem dedup_actions_independent m imdbId a b t t' :
  a <> b -> m !! dedup_key imdbId b = None ->
  fst (deduplicateRating (snd (deduplicateRating m t imdbId a)) t' imdbId b) = true.
Proof.
  intros Hab Hb.
  pose proof (dedup_frame_core m t imdbId a) as F.
  destruct (deduplicateRating m t imdbId a) as [ok m1]. destruct F as [F _]. simpl.
  unfold deduplicateRating. rewrite F, Hb; [reflexivity|].
  intros E. apply dedup_key_inj in E. congruence.
Qed.
End Dedup.

Section Rt.
Import Routes Routes2.

(** A repeated /watchlist/add request for the same id within 5 seconds enqueues nothing (when the first ran at a non-zero time). *)
Theorem add_route_drops_repeat m now d imdbId slug :
  m !! Server.dedup_key imdbId "watchlist-add" = None -> now <> 0 -> 0 <= d < 5000 ->
  slug <> EmptyString ->
  let '(m1, j1) := route_watchlist_add true m now imdbId (Session.Ok (Some slug)) in
  j1 = Some (JobWatchAdd slug) /\
  route_watchlist_add true m1 (now + d) imdbId (Session.Ok (Some slug)) = (m1, None).
Proof.
  intros Hm Hnow Hd Hs. unfold route_watchlist_add. simpl.
  unfold Server.deduplicateRating at 1. rewrite Hm. simpl.
  destruct (String.eqb_spec slug ""); [contradiction|]. split; [reflexivity|].
  unfold Server.deduplicateRating. rewrite lookup_insert_eq.
  replace (negb (now =? 0) && (now + d - now <? 5000)) with true; [reflexivity|].
  symmetry. apply andb_true_intro. split.
  - apply negb_true_iff, Z.eqb_neq. exact Hnow.
  - apply Z.ltb_lt. lia.
Qed.

(** Two /rate requests for the same film with different star values are both enqueued, even within 5 seconds. *)
Theorem rate_route_keyed_by_stars m now t imdbId s1 s2 slug :
  s1 <> s2 -> m !! Server.dedup_key imdbId s1 = None ->
  m !! Server.dedup_key imdbId s2 = None -> slug <> EmptyString ->
  let '(m1, j1) := route_rate true m now imdbId s1 (Session.Ok (Some slug)) in
  j1 = Some (JobRate slug s1) /\
  snd (route_rate true m1 t imdbId s2 (Session.Ok (Some slug))) = Some (JobRate slug s2).
Proof.
  intros Hne H1 H2 Hs. unfold route_rate. simpl.
  unfold Server.deduplicateRating at 1. rewrite H1. simpl.
  destruct (String.eqb_spec slug ""); [contradiction|]. split; [reflexivity|].
  unfold Server.deduplicateRating. rewrite lookup_insert_ne, H2; [reflexivity|].
  intros E. apply dedup_key_inj in E. congruence.
Qed.
End Rt.

Section Drain.
Import Server Routes2.
Context {J : Type}.

Lemma q_run_cons (s : qstate J) op ops :
  q_run s (op :: ops) =
  let '(s1, e1) := q_step s op in let '(s2, e2) := q_run s1 ops in (s2, e1 ++ e2).
Proof. reflexivity. Qed.

(** Once the job in flight settles, the queue runs every waiting job in order, one at a time, whether jobs resolve or reject, and ends idle. *)
Theorem queue_drains_all (j : J) q t0 ts :
  length ts = length q ->
  q_run (mkQ q true (DAwaiting j)) (drain_ops (t0 :: ts))
  = (q_init, Finished j t0 :: trace_of (combine q ts) None).
Proof.
  revert j t0 ts. induction q as [|j' q IH]; intros j t0 ts Hl.
  - destruct ts; [|discriminate]. reflexivity.
  - destruct ts as [|t1 ts]; [discriminate|]. injection Hl; intros Hl'.
    change (drain_ops (t0 :: t1 :: ts))
      with (@OpSettle J t0 :: OpResume :: drain_ops (t1 :: ts)).
    rewrite q_run_cons.
    change (q_step (mkQ (j' :: q) true (DAwaiting j)) (OpSettle t0))
      with (mkQ (j' :: q) true (@DResuming J), [Finished j t0]).
    cbv beta iota zeta. rewrite q_run_cons.
    change (q_step (mkQ (j' :: q) true (@DResuming J)) OpResume)
      with (mkQ q true (DAwaiting j'), [Started j']).
    cbv beta iota zeta. rewrite (IH j' t1 ts Hl'). reflexivity.
Qed.
End Drain.

Section Listing_props.
Import Listing.

Lemma watchlist_loop_pages fetch fss o last p fuel :
  (forall i, (i < length fss)%nat -> fetch (p + Z.of_nat i) = PageOk (nth i fss []) true) ->
  fetch (p + Z.of_nat (length fss)) = o ->
  (o = PageThrows /\ last = []) \/ o = PageOk last false ->
  (length fss < fuel)%nat ->
  watchlist_loop fetch fuel p
  = (concat fss ++ last, map (fun i => p + Z.of_nat i) (seq 0 (S (length fss)))).
Proof.
  revert p fuel. induction fss as [|fs fss IH]; intros p fuel Hpages Hlast Ho Hfuel.
  - destruct fuel as [|f]; [simpl in Hfuel; lia|]. simpl in Hlast. rewrite Z.add_0_r in Hlast.
    simpl. rewrite Hlast, Z.add_0_r.
    destruct Ho as [[-> ->]| ->]; reflexivity.
  - destruct fuel as [|f]; [simpl in Hfuel; lia|]. simpl.
    pose proof (Hpages 0%nat ltac:(simpl; lia)) as H0. rewrite Z.add_0_r in H0. simpl in H0.
    rewrite H0.
    rewrite (IH (p + 1) f).
    + rewrite Z.add_0_r, <- app_assoc. f_equal. f_equal.
      change (seq 0 (S (S (length fss)))) with (0%nat :: seq 1 (S (length fss))).
      rewrite <- seq_shift, map_map. simpl. rewrite Z.add_0_r. f_equal.
      apply map_ext. intros i. lia.
    + intros i Hi. rewrite <- Z.add_assoc.
      replace (1 + Z.of_nat i) with (Z.of_nat (S i)) by lia.
      apply (Hpages (S i)). simpl; lia.
    + rewrite <- Hlast. f_equal. simpl. lia.
    + exact Ho.
    + simpl in Hfuel. lia.
Qed.

(** With a cold cache, getWatchlist requests pages 1, 2, ... until a page without a next link or a failing page, returns the films of the pages read in order, and caches them for 5 minutes. *)
Theorem getWatchlist_collects_pages fetch fss o last fuel c now t_end u :
  c !! watchlist_key u = None ->
  (forall i, (i < length fss)%nat -> fetch (Z.of_nat i + 1) = PageOk (nth i fss []) true) ->
  fetch (Z.of_nat (length fss) + 1) = o ->
  (o = PageThrows /\ last = []) \/ o = PageOk last false ->
  (length fss < fuel)%nat ->
  getWatchlist fetch fuel c now t_end u
  = (concat fss ++ last,
     setCache c t_end (watchlist_key u) (Some (concat fss ++ last)) UserRating.five_min,
     map (fun i => Z.of_nat i + 1) (seq 0 (S (length fss)))).
Proof.
  intros Hc Hpages Hlast Ho Hfuel. unfold getWatchlist. unfold getCache. rewrite Hc.
  rewrite (watchlist_loop_pages fetch fss o last 1 fuel).
  - rewrite (map_ext (fun i => 1 + Z.of_nat i) (fun i => Z.of_nat i + 1)) by (intros; lia).
    reflexivity.
  - intros i Hi. rewrite Z.add_comm. apply Hpages; exact Hi.
  - rewrite Z.add_comm. exact Hlast.
  - exact Ho.
  - exact Hfuel.
Qed.

(** A listing fetched by getWatchlist, even an empty one, is returned from the cache without any request for 5 minutes after it was stored. *)
Theorem getWatchlist_cached_within_ttl fetch fetch' fuel fuel' c now t_end t2 t3 u :
  c !! watchlist_key u = None -> t2 <= t_end + UserRating.five_min ->
  let '(fs, c1, _) := getWatchlist fetch fuel c now t_end u in
  getWatchlist fetch' fuel' c1 t2 t3 u = (fs, c1, []).
Proof.
  intros Hc Ht. unfold getWatchlist at 1. unfold getCache at 1. rewrite Hc.
  destruct (watchlist_loop fetch fuel 1) as [fs pages].
  unfold getWatchlist, getCache, setCache. rewrite lookup_insert_eq. simpl.
  replace (t_end + UserRating.five_min <? t2) with false; [reflexivity|].
  symmetry. apply Z.ltb_ge. lia.
Qed.

(** getFilmMeta caches nothing when the fetch fails (it returns an all-null meta); a fetched meta, even one without imdbId, is returned from the cache for 6 hours. *)
Theorem getFilmMeta_caches_success_only c now t_end t2 t3 slug pm out' :
  c !! meta_key slug = None ->
  getFilmMeta MetaThrows c now t_end slug = (meta_null, c, [UserRating.film_url slug]) /\
  (t2 <= t_end + six_hours ->
   let '(m, c1, _) := getFilmMeta (MetaPage pm) c now t_end slug in
   m = pm /\ getFilmMeta out' c1 t2 t3 slug = (pm, c1, [])).
Proof.
  intros Hc. unfold getFilmMeta at 1 2. unfold getCache at 1 2. rewrite Hc.
  split; [reflexivity|]. intros Ht. split; [reflexivity|].
  unfold getFilmMeta, getCache, setCache. rewrite lookup_insert_eq. simpl.
  replace (t_end + six_hours <? t2) with false; [reflexivity|].
  symmetry. apply Z.ltb_ge. lia.
Qed.
End Listing_props.

Section Catalog_props.
Import Listing Handlers.

Lemma catalog_batches_flat metaOf fuel l :
  (length l <= fuel)%nat -> catalog_batches fuel metaOf l = omap (catalog_entry metaOf) l.
Proof.
  revert l. induction fuel as [|f IH]; intros l Hl.
  - destruct l; [reflexivity|simpl in Hl; lia].
  - destruct l as [|x l']; [reflexivity|].
    assert (E : catalog_batches (S f) metaOf (x :: l')
                = omap (catalog_entry metaOf) (take 5 (x :: l'))
                  ++ catalog_batches f metaOf (drop 5 (x :: l'))) by reflexivity.
    rewrite E, IH.
    + rewrite <- omap_app, take_drop. reflexivity.
    + rewrite length_drop. simpl in *. lia.
Qed.

(** For a numeric skip k >= 0, the catalog lists the films at positions k to k+99 that have an IMDb id, in watchlist order (batching does not change the result), so at most 100 entries. *)
Theorem catalog_window k films metaOf :
  0 <= k ->
  catalog "movie" "letterboxd-watchlist" (Some k) films metaOf
    = omap (catalog_entry metaOf) (take 100 (drop (Z.to_nat k) films)) /\
  (length (catalog "movie" "letterboxd-watchlist" (Some k) films metaOf) <= 100)%nat.
Proof.
  intros Hk.
  assert (E : catalog "movie" "letterboxd-watchlist" (Some k) films metaOf
              = omap (catalog_entry metaOf) (take 100 (drop (Z.to_nat k) films))).
  { unfold catalog. simpl. rewrite catalog_batches_flat by lia. f_equal.
    unfold js_slice, rel_index.
    replace (k <? 0) with false by (symmetry; apply Z.ltb_ge; lia).
    replace (k + 100 <? 0) with false by (symmetry; apply Z.ltb_ge; lia).
    destruct (Z.le_gt_cases (Z.of_nat (length films)) k) as [Hge|Hlt].
    - rewrite !Z.min_r by lia.
      rewrite !drop_ge by lia. rewrite !take_nil. reflexivity.
    - rewrite (Z.min_l k) by lia.
      destruct (Z.le_gt_cases (k + 100) (Z.of_nat (length films))) as [H1|H1].
      + rewrite Z.min_l by lia. f_equal. lia.
      + rewrite Z.min_r by lia.
        rewrite !take_ge; [reflexivity| |]; rewrite length_drop; lia. }
  split; [exact E|]. rewrite E.
  etransitivity; [|apply (Nat.le_min_l 100 (length (drop (Z.to_nat k) films)))].
  rewrite <- length_take. clear E. generalize (take 100 (drop (Z.to_nat k) films)).
  intros l. induction l as [|x l IH]; [simpl; lia|].
  change (omap (catalog_entry metaOf) (x :: l))
    with (match catalog_entry metaOf x with
          | Some y => y :: omap (catalog_entry metaOf) l
          | None => omap (catalog_entry metaOf) l end).
  destruct (catalog_entry metaOf x); cbn [length]; lia.
Qed.

(** A skip that parses to NaN gives an empty catalog page. *)
Theorem catalog_nan_skip films metaOf :
  catalog "movie" "letterboxd-watchlist" None films metaOf = [].
Proof. unfold catalog, js_slice, rel_index. simpl. reflexivity. Qed.
End Catalog_props.

Section UR.
Import UserRating.

(** A rating that getUserRating finds is returned from the cache, with no browser work and whatever the session, for 5 minutes. *)
Theorem getUserRating_found_is_cached has c now u slug cls v c' eff has' t2 out' :
  c !! userrating_key u slug = None -> t2 <= now + five_min ->
  getUserRating has c now u slug (URRatingClass cls) = (JHalves v, c', eff) ->
  getUserRating has' c' t2 u slug out' = (JHalves v, c', []).
Proof.
  intros Hc Ht. unfold getUserRating at 1. unfold getCache at 1. rewrite Hc.
  destruct has; simpl; [|intros H; injection H; discriminate].
  destruct (ur_from_class c now (userrating_key u slug) cls) as [v0 c2] eqn:E.
  intros H; injection H; intros _ <- ->.
  unfold ur_from_class in E.
  assert (Hc2 : c2 = setCache c now (userrating_key u slug) (JHalves v) five_min).
  { destruct cls as [cl|]; [|injection E; intros; discriminate].
    destruct (if starts_with "rateit:" cl then _ else _) as [val|];
      injection E; intros; subst; [reflexivity|discriminate]. }
  subst c2. unfold getUserRating, getCache, setCache. rewrite lookup_insert_eq. simpl.
  replace (now + five_min <? t2) with false; [reflexivity|].
  symmetry. apply Z.ltb_ge. lia.
Qed.
End UR.

Section Witnesses.
Import Session Resolver Listing Handlers Routes Routes2 UserRating SlugText Scenarios.

Lemma rating_map_own_keys_witness : 1 <= 8 <= 10 /\ "4" = halves_to_string 8.
Proof. apply (rating_map_own_keys "4" 8). reflexivity. Defined.


Lemma film_url_round_trip_witness :
  film_slug_of (film_url "heat-1995") = Some "heat-1995" /\
  ("heat-1995" <> "imdb" -> attempt_slug (AUrl (film_url "heat-1995")) = Some "heat-1995") /\
  attempt_slug (AUrl (film_url ("imdb/" +:+ "tt0113277"))) = None.
Proof.
  apply film_url_round_trip; [discriminate|]. repeat constructor; discriminate.
Defined.

Lemma resolve_memoises_witness :
  resolveSlugFromImdb Scenarios.rw_two_films (<["tt0113277" := "heat-1995"]> ∅) "tt0113277"
  = (<["tt0113277" := "heat-1995"]> ∅, [], Ok (Some "heat-1995")).
Proof.
  apply (resolve_memoises Scenarios.rw_two_films Scenarios.rw_two_films ∅ "tt0113277" _
           [RListing; RMeta "heat-1995"]).
  reflexivity.
Defined.

Lemma dedup_actions_independent_witness :
  fst (Server.deduplicateRating (snd (Server.deduplicateRating ∅ 1000 "tt1" "watchlist-add"))
         1500 "tt1" "watchlist-remove") = true.
Proof. apply dedup_actions_independent; [discriminate | reflexivity]. Defined.

Lemma add_route_drops_repeat_witness :
  let '(m1, j1) := route_watchlist_add true ∅ 1000 "tt1" (Ok (Some "heat-1995")) in
  j1 = Some (JobWatchAdd "heat-1995") /\
  route_watchlist_add true m1 (1000 + 800) "tt1" (Ok (Some "heat-1995")) = (m1, None).
Proof. apply add_route_drops_repeat; [reflexivity | lia | lia | discriminate]. Defined.

Lemma rate_route_keyed_by_stars_witness :
  let '(m1, j1) := route_rate true ∅ 1000 "tt1" "4" (Ok (Some "heat-1995")) in
  j1 = Some (JobRate "heat-1995" "4") /\
  snd (route_rate true m1 1200 "tt1" "4.5" (Ok (Some "heat-1995"))) = Some (JobRate "heat-1995" "4.5").
Proof. apply rate_route_keyed_by_stars; [discriminate | reflexivity | reflexivity | discriminate]. Defined.

Lemma queue_drains_all_witness :
  Server.q_run (Server.mkQ [2%nat; 3%nat] true (Server.DAwaiting 1%nat)) (drain_ops [true; false; true])
  = (Server.q_init, Server.Finished 1%nat true
       :: Server.trace_of (combine [2%nat; 3%nat] [false; true]) None).
Proof. apply queue_drains_all. reflexivity. Defined.

Lemma getWatchlist_collects_pages_witness :
  getWatchlist wl_fetch 5 ∅ 0 900 "me"
  = (concat [[wl_f1]] ++ [wl_f2],
     setCache ∅ 900 (watchlist_key "me") (Some (concat [[wl_f1]] ++ [wl_f2])) five_min,
     map (fun i => Z.of_nat i + 1) (seq 0 (S (length [[wl_f1]])))).
Proof.
  apply (getWatchlist_collects_pages wl_fetch [[wl_f1]] (PageOk [wl_f2] false)).
  - reflexivity.
  - intros i Hi. destruct i as [|i]; [reflexivity | simpl in Hi; lia].
  - reflexivity.
  - right; reflexivity.
  - simpl; lia.
Defined.

Lemma getWatchlist_cached_within_ttl_witness :
  let '(fs, c1, _) := getWatchlist (fun _ => PageOk [] false) 5 ∅ 0 10 "me" in
  getWatchlist wl_fetch 5 c1 200000 200001 "me" = (fs, c1, []).
Proof. apply getWatchlist_cached_within_ttl; [reflexivity | unfold five_min; lia]. Defined.

Lemma getFilmMeta_caches_success_only_witness :
  getFilmMeta MetaThrows ∅ 0 10 "heat-1995" = (meta_null, ∅, [film_url "heat-1995"]) /\
  (1000 <= 10 + six_hours ->
   let '(m, c1, _) := getFilmMeta (MetaPage meta_null) ∅ 0 10 "heat-1995" in
   m = meta_null /\ getFilmMeta MetaThrows c1 1000 1001 "heat-1995" = (meta_null, c1, [])).
Proof. apply getFilmMeta_caches_success_only. reflexivity. Defined.

Lemma catalog_window_witness :
  catalog "movie" "letterboxd-watchlist" (Some 1%Z) [wl_f1; wl_f2] (fun _ => meta_null)
    = omap (catalog_entry (fun _ => meta_null)) (take 100 (drop (Z.to_nat 1%Z) [wl_f1; wl_f2])) /\
  (length (catalog "movie" "letterboxd-watchlist" (Some 1%Z) [wl_f1; wl_f2] (fun _ => meta_null))
     <= 100)%nat.
Proof. apply catalog_window. lia. Defined.

Lemma getUserRating_found_is_cached_witness :
  getUserRating false (setCache ∅ 0 (userrating_key "me" "heat-1995") (JHalves 8) five_min)
    1000 "me" "heat-1995" UREnsureThrows
  = (JHalves 8, setCache ∅ 0 (userrating_key "me" "heat-1995") (JHalves 8) five_min, []).
Proof.
  apply (getUserRating_found_is_cached true ∅ 0 "me" "heat-1995" (Some "rated-8") 8 _
           [UREnsureLoggedIn; URNewPage; URGoto (film_url "heat-1995"); UREvaluate; URClosePage]).
  - reflexivity.
  - unfold five_min; lia.
  - reflexivity.
Defined.
End Witnesses.
